(** * active-keys: the KeyWatcher of src/index.js

    A shallow embedding of the [KeyWatcher] class and the properties of its
    event handlers.

    Modelling choices.
    - [activeKeys] is a JavaScript object used as a dictionary from
      [KeyboardEvent#key] strings to numbers.  Its own properties are a
      [gmap string Z]; it is a plain object, so a key that is not an own
      property is looked up in [Object.prototype] ([getProperty]), and a
      write to [__proto__] goes to the setter found there ([setNumber]).
    - The stored numbers are results of the bitwise operators, that is signed
      32-bit integers; they are kept as [Z] and every operator applies
      [ToInt32] to its operands and to its result.
    - [location] is an integer ([Z]); the shift count of [<<] is
      [ToUint32 location & 31].
    - Strings are sequences of bytes, the UTF-8 encoding of the key.  The
      regular expression of [_isNamedKey] and the handler names of
      [handleEvent] involve ASCII letters and digits only, and no character
      outside ASCII has one of them as its upper case image or as a byte of
      its encoding.
    - [this] is threaded explicitly: a handler maps a watcher to a watcher.
      The record also counts the [change] events handed to [dispatchEvent]
      and keeps the lines written by [console.warn]. *)

From Stdlib Require Import ZArith Lia Bool Ascii String List.
From stdpp Require Import base tactics option list gmap strings.

Local Open Scope string_scope.
Local Open Scope Z_scope.

(** ** Numbers: the 32-bit integer operators of JavaScript *)

Module Int32.

Definition ToUint32 (z : Z) : Z := z mod 2 ^ 32.

Definition ToInt32 (z : Z) : Z :=
  let r := z mod 2 ^ 32 in
  if r <? 2 ^ 31 then r else r - 2 ^ 32.

(** [a & b] *)
Definition band (a b : Z) : Z := ToInt32 (Z.land (ToInt32 a) (ToInt32 b)).

(** [a | b] *)
Definition bor (a b : Z) : Z := ToInt32 (Z.lor (ToInt32 a) (ToInt32 b)).

(** [~a] *)
Definition bnot (a : Z) : Z := ToInt32 (Z.lnot (ToInt32 a)).

(** [a << b]: the shift count is the low five bits of [ToUint32 b]. *)
Definition shl (a b : Z) : Z :=
  ToInt32 (Z.shiftl (ToInt32 a) (Z.land (ToUint32 b) 31)).

(** The numbers that the bitwise operators return. *)
Definition is_int32 (z : Z) : Prop := ToInt32 z = z.

End Int32.

(** ** Strings *)

Definition code (c : ascii) : N := N_of_ascii c.

Definition isUpperAZ (c : ascii) : bool :=
  ((65 <=? code c) && (code c <=? 90))%N.

Definition isLowerAZ (c : ascii) : bool :=
  ((97 <=? code c) && (code c <=? 122))%N.

Definition isDigit (c : ascii) : bool :=
  ((48 <=? code c) && (code c <=? 57))%N.

(** The character class [[a-zA-Z0-9]]. *)
Definition isAlnum (c : ascii) : bool :=
  isLowerAZ c || isUpperAZ c || isDigit c.

Fixpoint allAlnum (s : string) : bool :=
  match s with
  | EmptyString => true
  | String c r => isAlnum c && allAlnum r
  end.

(** [c.toUpperCase()] on one character. *)
Definition toUpperCase (c : ascii) : ascii :=
  if isLowerAZ c then ascii_of_N (code c - 32) else c.

(** ** The watcher *)

Record KeyWatcher : Type := mkKeyWatcher {
  activeKeys : gmap string Z;
  (** number of [change] events passed to [dispatchEvent] so far *)
  dispatched : nat;
  (** lines written by [console.warn], latest first *)
  warnings : list string
}.

(** [activeKeys = {}] in a new instance. *)
Definition newKeyWatcher : KeyWatcher :=
  {| activeKeys := ∅; dispatched := 0; warnings := [] |}.

Definition setActiveKeys (m : gmap string Z) (w : KeyWatcher) : KeyWatcher :=
  {| activeKeys := m; dispatched := dispatched w; warnings := warnings w |}.

(** Reading a property that may be absent: [None] is [undefined]. *)
Definition truthy (v : option Z) : bool :=
  match v with
  | Some n => negb (n =? 0)
  | None => false
  end.

(** [v || 0] *)
Definition orZero (v : option Z) : Z :=
  if truthy v then default 0 v else 0.

(** A value read from the object: [undefined], a number, or an object (one
    of the functions that a plain object inherits, or its prototype).  An
    object is truthy, and as an operand of a bitwise operator it counts as 0,
    its [ToNumber] being [NaN]. *)
Inductive Value : Type :=
  | VUndefined
  | VNumber (n : Z)
  | VObject.

Definition truthyValue (v : Value) : bool :=
  match v with
  | VUndefined => false
  | VNumber n => negb (n =? 0)
  | VObject => true
  end.

(** The operand that a bitwise operator computes with. *)
Definition numberOf (v : Value) : Z :=
  match v with
  | VNumber n => n
  | VUndefined | VObject => 0
  end.

(** [v || 0] *)
Definition valueOrZero (v : Value) : Value :=
  if truthyValue v then v else VNumber 0.

(** The names of the members of [Object.prototype]: eleven functions and
    the accessor [__proto__]. *)
Definition Object_prototype_members : list string :=
  [ "constructor"; "hasOwnProperty"; "isPrototypeOf"; "propertyIsEnumerable";
    "toLocaleString"; "toString"; "valueOf";
    "__defineGetter__"; "__defineSetter__";
    "__lookupGetter__"; "__lookupSetter__"; "__proto__" ].

Definition inheritedMember (key : string) : bool :=
  bool_decide (key ∈ Object_prototype_members).

(** The inherited members that are functions: all but [__proto__]. *)
Definition inheritedFunction (key : string) : bool :=
  inheritedMember key && negb (String.eqb key "__proto__").

(** [this.activeKeys[key]], read: the own property when there is one, the
    member inherited from [Object.prototype] otherwise (for [__proto__] the
    getter returns the prototype). *)
Definition getProperty (m : gmap string Z) (key : string) : Value :=
  match m !! key with
  | Some n => VNumber n
  | None => if inheritedMember key then VObject else VUndefined
  end.

(** [this.activeKeys[key] = n] for a number [n]: the own property is written
    or created, except that a write to [__proto__], when it is not an own
    property, goes to the inherited setter, which ignores a number. *)
Definition setNumber (key : string) (n : Z) (m : gmap string Z)
  : gmap string Z :=
  if String.eqb key "__proto__" && bool_decide (m !! key = None) then m
  else <[key := n]> m.

(** [this.activeKeys[key] = v], with the value that the next read of the key
    gives.  The object [v] can only be the inherited member just read from
    the same key.  For [__proto__] the setter puts the same prototype back.
    For a function, the own property created holds the function that the key
    inherits: it reads as before, and it lasts for one statement, the handler
    overwriting it with a number at once ([numberOf] a function is 0, so the
    test before [|=] succeeds); the own properties kept here are the numbers. *)
Definition assignProperty (key : string) (v : Value) (m : gmap string Z)
  : gmap string Z * Value :=
  match v with
  | VNumber n => let m := setNumber key n m in (m, getProperty m key)
  | VUndefined | VObject => (m, getProperty m key)
  end.

(** [Object.keys(this.activeKeys)] *)
Definition Object_keys (m : gmap string Z) : list string :=
  (map_to_list m).*1.

(** [_dispatch]: one [change] event is handed to [dispatchEvent]. *)
Definition _dispatch (w : KeyWatcher) : KeyWatcher :=
  {| activeKeys := activeKeys w;
     dispatched := S (dispatched w);
     warnings := warnings w |}.

(** [_removeAll]: delete every own key, then dispatch. *)
Definition _removeAll (w : KeyWatcher) : KeyWatcher :=
  let m := foldl (fun acc activeKey => delete activeKey acc)
                 (activeKeys w) (Object_keys (activeKeys w)) in
  _dispatch (setActiveKeys m w).

(** [_handleBlur] *)
Definition _handleBlur (w : KeyWatcher) : KeyWatcher := _removeAll w.

(** [_isNamedKey]: [key.match(/^[A-Z][a-zA-Z0-9]+$/)], as truthy or not. *)
Definition _isNamedKey (key : string) : bool :=
  match key with
  | String c (String d r) => isUpperAZ c && isAlnum d && allAlnum r
  | _ => false
  end.

(** One turn of the loop of [_removeUnnamedKeys], on the pair of the flag
    [removed] and the object. *)
Definition removeUnnamed_body (acc : bool * gmap string Z) (activeKey : string)
  : bool * gmap string Z :=
  if _isNamedKey activeKey then acc else (true, delete activeKey acc.2).

(** [_removeUnnamedKeys] *)
Definition _removeUnnamedKeys (w : KeyWatcher) : bool * KeyWatcher :=
  let '(removed, m) :=
    foldl removeUnnamed_body (false, activeKeys w)
          (Object_keys (activeKeys w)) in
  (removed, setActiveKeys m w).

(** [_handleModifiers]: returns [[key === 'Dead' ? null : key, changed]];
    [None] is [null]. *)
Definition _handleModifiers (key : string) (w : KeyWatcher)
  : (option string * bool) * KeyWatcher :=
  let changed := false in
  let '(changed, w) :=
    if _isNamedKey key then
      (* changed = changed || this._removeUnnamedKeys() *)
      if changed then (changed, w) else _removeUnnamedKeys w
    else (changed, w) in
  ((if String.eqb key "Dead" then None else Some key, changed), w).

(** Truthiness of the key returned by [_handleModifiers]: [null] and the
    empty string are falsy. *)
Definition truthyKey (key : option string) : option string :=
  match key with
  | Some EmptyString => None
  | k => k
  end.

(** [_handleKeydown({key, location})] *)
Definition _handleKeydown (key : string) (location : Z) (w : KeyWatcher)
  : KeyWatcher :=
  let '((newKey, changed), w) := _handleModifiers key w in
  let '(changed, w) :=
    match truthyKey newKey with
    | Some key =>
        (* wasActive = this.activeKeys[key] = this.activeKeys[key] || 0 *)
        let wasActive := valueOrZero (getProperty (activeKeys w) key) in
        let '(m, current) := assignProperty key wasActive (activeKeys w) in
        let bitwise := Int32.shl 1 location in
        (* if (!(this.activeKeys[key] & bitwise)) *)
        if Int32.band (numberOf current) bitwise =? 0 then
          (* this.activeKeys[key] |= bitwise *)
          let m := setNumber key (Int32.bor (numberOf current) bitwise) m in
          (* if (!wasActive) changed = true *)
          ((if truthyValue wasActive then changed else true),
           setActiveKeys m w)
        else (changed, setActiveKeys m w)
    | None => (changed, w)
    end in
  if changed then _dispatch w else w.

(** [_handleKeyup({key, location})] *)
Definition _handleKeyup (key : string) (location : Z) (w : KeyWatcher)
  : KeyWatcher :=
  let '((newKey, changed), w) := _handleModifiers key w in
  let '(changed, w) :=
    match truthyKey newKey with
    | Some key =>
        if truthyValue (getProperty (activeKeys w) key) then
          let bitwiseInverse := Int32.bnot (Int32.shl 1 location) in
          (* this.activeKeys[key] &= bitwiseInverse *)
          let m := setNumber key
                     (Int32.band (numberOf (getProperty (activeKeys w) key))
                                 bitwiseInverse)
                     (activeKeys w) in
          (* if (!this.activeKeys[key]) *)
          if truthyValue (getProperty m key) then (changed, setActiveKeys m w)
          else (true, setActiveKeys (delete key m) w)
        else (changed, w)
    | None => (changed, w)
    end in
  if changed then _dispatch w else w.

(** ** The entry point *)

(** What [handleEvent] reads of an event: its [type], and the [key] and
    [location] that the keyboard handlers destructure.  An event that is not
    a keyboard event has no [key]: it reads as [undefined], [None] here.  An
    event without a [location] shifts by 0, as location 0 does. *)
Record Event : Type := mkEvent {
  evt_type : string;
  evt_key : option string;
  evt_location : Z
}.

(** The members of a watcher whose name starts with [_handle]; every name
    that [handleEvent] builds starts so, and no other member of the class or
    of the classes it extends does. *)
Inductive Member : Type :=
  | M_handleKeydown
  | M_handleKeyup
  | M_handleBlur
  | M_handleModifiers.

(** [this[typeHandler]] *)
Definition member (typeHandler : string) : option Member :=
  if String.eqb typeHandler "_handleKeydown" then Some M_handleKeydown
  else if String.eqb typeHandler "_handleKeyup" then Some M_handleKeyup
  else if String.eqb typeHandler "_handleBlur" then Some M_handleBlur
  else if String.eqb typeHandler "_handleModifiers" then Some M_handleModifiers
  else None.

(** A call either returns or throws a [TypeError]. *)
Inductive completion : Type :=
  | Normal (w : KeyWatcher)
  | ThrowTypeError.

Definition console_warn (line : string) (w : KeyWatcher) : KeyWatcher :=
  {| activeKeys := activeKeys w;
     dispatched := dispatched w;
     warnings := line :: warnings w |}.

(** The call of a keyboard handler with the event: with no [key], the
    handler passes [undefined] to [_handleModifiers] and [_isNamedKey] calls
    [match] on it, which throws before anything is changed. *)
Definition callKeyHandler (handler : string -> Z -> KeyWatcher -> KeyWatcher)
    (evt : Event) (w : KeyWatcher) : completion :=
  match evt_key evt with
  | Some key => Normal (handler key (evt_location evt) w)
  | None => ThrowTypeError
  end.

(** [handleEvent(evt)].  [evt.type[0]] of the empty string is [undefined],
    whose [toUpperCase] cannot be called.  [_handleModifiers], when it is the
    member found, receives the event object where it expects a string:
    [_isNamedKey] calls [key.match], which an event does not have. *)
Definition handleEvent (evt : Event) (w : KeyWatcher) : completion :=
  match evt_type evt with
  | EmptyString => ThrowTypeError
  | String c rest =>
      let typeHandler := ("_handle" ++ String (toUpperCase c) rest)%string in
      match member typeHandler with
      | Some M_handleKeydown => callKeyHandler _handleKeydown evt w
      | Some M_handleKeyup => callKeyHandler _handleKeyup evt w
      | Some M_handleBlur => Normal (_handleBlur w)
      | Some M_handleModifiers => ThrowTypeError
      | None =>
          Normal (console_warn
                    ("No handler for " ++ evt_type evt ++ " on KeyWatcher.")%string
                    w)
      end
  end.

(** ** Sequences of events *)

(** The three kinds of event a watcher subscribes to. *)
Inductive KeyEvent : Type :=
  | KeyDown (key : string) (location : Z)
  | KeyUp (key : string) (location : Z)
  | Blur.

(** The event object the window delivers for each kind. *)
Definition toEvent (e : KeyEvent) : Event :=
  match e with
  | KeyDown key location => mkEvent "keydown" (Some key) location
  | KeyUp key location => mkEvent "keyup" (Some key) location
  | Blur => mkEvent "blur" None 0
  end.

Definition handle (e : KeyEvent) (w : KeyWatcher) : KeyWatcher :=
  match e with
  | KeyDown key location => _handleKeydown key location w
  | KeyUp key location => _handleKeyup key location w
  | Blur => _handleBlur w
  end.

(** Delivering the events of [tr] in order. *)
Definition replay (tr : list KeyEvent) (w : KeyWatcher) : KeyWatcher :=
  foldl (fun w e => handle e w) w tr.

(** Number of [change] events that handling [e] in [w] dispatches. *)
Definition notifications (e : KeyEvent) (w : KeyWatcher) : nat :=
  (dispatched (handle e w) - dispatched w)%nat.


(** ** The rest of the class *)

(** [a || b] on values read from the object: the first operand when it is
    truthy, the second one otherwise. *)
Definition jsOr (a b : option Z) : option Z := if truthy a then a else b.

(** The getter [_eventModifierKeyIsActive]:
    [activeKeys.Alt || activeKeys.Control || activeKeys.Meta || activeKeys.Shift]. *)
Definition _eventModifierKeyIsActive (w : KeyWatcher) : option Z :=
  jsOr (jsOr (jsOr (activeKeys w !! "Alt") (activeKeys w !! "Control"))
             (activeKeys w !! "Meta"))
       (activeKeys w !! "Shift").

(** The event listener list of [window], as the set of the pairs of an event
    type and a registered object; the objects are told apart by a number.
    [addEventListener] does not register a pair twice, and
    [removeEventListener] removes it. *)
Definition addEventListener (type : string) (this : nat)
    (l : gset (string * nat)) : gset (string * nat) :=
  {[ (type, this) ]} ∪ l.

Definition removeEventListener (type : string) (this : nat)
    (l : gset (string * nat)) : gset (string * nat) :=
  l ∖ {[ (type, this) ]}.

(** [constructor]: the new watcher [this] and the listeners of [window]. *)
Definition constructor (this : nat) (l : gset (string * nat))
  : KeyWatcher * gset (string * nat) :=
  let l := addEventListener "keydown" this l in
  let l := addEventListener "keyup" this l in
  let l := addEventListener "blur" this l in
  (newKeyWatcher, l).

(** [_destroy] *)
Definition _destroy (this : nat) (l : gset (string * nat))
  : gset (string * nat) :=
  let l := removeEventListener "keydown" this l in
  let l := removeEventListener "keyup" this l in
  let l := removeEventListener "blur" this l in
  l.

(** [window] dispatching [evt]: the watcher [this] has its [handleEvent]
    called when it is registered for the type of the event. *)
Definition window_dispatch (evt : Event) (this : nat)
    (l : gset (string * nat)) (w : KeyWatcher) : completion :=
  if bool_decide ((evt_type evt, this) ∈ l) then handleEvent evt w
  else Normal w.

(** ** Notions used in the statements *)

(** The entries of the object whose key is a named key. *)
Definition namedOnly (m : gmap string Z) : gmap string Z :=
  filter (fun kv => _isNamedKey kv.1 = true) m.

(** Does the object have a key that is not a named key? *)
Definition hasUnnamed (m : gmap string Z) : bool :=
  existsb (fun k => negb (_isNamedKey k)) (Object_keys m).

(** The object that [_handleModifiers] leaves for an incoming key. *)
Definition afterModifiers (key : string) (m : gmap string Z) : gmap string Z :=
  if _isNamedKey key then namedOnly m else m.

(** The keys that the handlers go on to track: not empty and not ["Dead"]. *)
Definition tracked (key : string) : bool :=
  negb (String.eqb key EmptyString) && negb (String.eqb key "Dead").

(** The key is not an own property of [m] and is found in
    [Object.prototype]. *)
Definition inheritsOnly (m : gmap string Z) (key : string) : bool :=
  bool_decide (m !! key = None) && inheritedMember key.

(** [changed && this._dispatch()] *)
Definition notify (changed : bool) (w : KeyWatcher) : KeyWatcher :=
  if changed then _dispatch w else w.

(** The value read for a key, [undefined] read as no bit. *)
Definition bitmask (m : gmap string Z) (key : string) : Z :=
  default 0 (m !! key).

(** Every stored value is a non-zero 32-bit integer. *)
Definition well_formed (m : gmap string Z) : Prop :=
  forall k v, m !! k = Some v -> v <> 0 /\ Int32.is_int32 v.

(** The pairs of key and location that are pressed and not yet released:
    a key-down presses its pair, a key-up releases it. *)
Definition press (h : gset (string * Z)) (e : KeyEvent) : gset (string * Z) :=
  match e with
  | KeyDown key location => {[ (key, location) ]} ∪ h
  | KeyUp key location => h ∖ {[ (key, location) ]}
  | Blur => h
  end.

Definition held (tr : list KeyEvent) : gset (string * Z) := foldl press ∅ tr.

(** The keys with at least one location pressed and not yet released. *)
Definition heldKeys (tr : list KeyEvent) : gset string :=
  set_map fst (held tr).

(** Each key-up at a pair of key and location comes after a key-down at
    that pair that no other key-up has released. *)
Fixpoint matched_from (h : gset (string * Z)) (tr : list KeyEvent) : bool :=
  match tr with
  | [] => true
  | e :: r =>
      match e with
      | KeyUp key location => bool_decide ((key, location) ∈ h)
      | _ => true
      end && matched_from (press h e) r
  end.

Definition matched (tr : list KeyEvent) : bool := matched_from ∅ tr.

(** A key-down or key-up whose key is none of the empty string, ["Dead"]
    and ["__proto__"], and whose location is one of 0..31. *)
Definition plain (e : KeyEvent) : bool :=
  match e with
  | KeyDown key location | KeyUp key location =>
      negb (String.eqb key EmptyString) && negb (String.eqb key "Dead")
      && negb (String.eqb key "__proto__")
      && (0 <=? location) && (location <? 32)
  | Blur => false
  end.

(** No event of a named key arrives while a key that is not named is
    held. *)
Fixpoint undisturbed_from (h : gset (string * Z)) (tr : list KeyEvent) : bool :=
  match tr with
  | [] => true
  | e :: r =>
      match e with
      | KeyDown key _ | KeyUp key _ =>
          if _isNamedKey key
          then forallb (fun p => _isNamedKey p.1) (elements h)
          else true
      | Blur => true
      end && undisturbed_from (press h e) r
  end.

Definition undisturbed (tr : list KeyEvent) : bool := undisturbed_from ∅ tr.

(** The key of a keyboard event. *)
Definition eventKey (e : KeyEvent) : option string :=
  match e with
  | KeyDown key _ | KeyUp key _ => Some key
  | Blur => None
  end.

(** An event that may come between two key-downs of [key] at [location]
    without undoing the first one: not a blur; not a key-up of [key] at a
    location congruent to [location] modulo 32; and not an event that takes
    part in the cleanup of the unnamed keys, that is, no event of a named key
    when [key] is not named, and no key-down of a key that is not named when
    [key] is named. *)
Definition harmless (key : string) (location : Z) (e : KeyEvent) : bool :=
  match e with
  | KeyDown k _ => Bool.eqb (_isNamedKey k) (_isNamedKey key)
  | KeyUp k l =>
      implb (_isNamedKey k) (_isNamedKey key)
      && negb (String.eqb k key && (l mod 32 =? location mod 32))
  | Blur => false
  end.

(** The object still has what a key-down of [key] at [location] leaves: no
    unnamed key when [key] is named, and the bit of [location] in the value
    of [key] (or no entry at all for [__proto__]). *)
Definition recorded (key : string) (location : Z) (m : gmap string Z) : Prop :=
  (_isNamedKey key = true -> hasUnnamed m = false) /\
  (tracked key = true ->
   (exists x, m !! key = Some x /\ Int32.band x (Int32.shl 1 location) <> 0)
   \/ (String.eqb key "__proto__" = true /\ m !! key = None)).

(** A byte that continues a character in UTF-8. *)
Definition isContinuationByte (c : ascii) : bool :=
  ((128 <=? code c) && (code c <=? 191))%N.

Fixpoint allContinuation (s : string) : bool :=
  match s with
  | EmptyString => true
  | String c r => isContinuationByte c && allContinuation r
  end.

(** The key is empty or one character: one byte, or the first byte of a
    character followed by its continuation bytes. *)
Definition atMostOneCharacter (key : string) : bool :=
  match key with
  | EmptyString => true
  | String _ rest => allContinuation rest
  end.

(** The object [m] records the held pairs [h], bit by bit. *)
Definition tracks (m : gmap string Z) (h : gset (string * Z)) : Prop :=
  well_formed m /\
  (forall k l, (k, l) ∈ h -> 0 <= l < 32) /\
  (forall k i, 0 <= i < 32 -> Z.testbit (bitmask m k) i = true <-> (k, i) ∈ h).

(** ** Int32: bits *)

Module Int32Facts.
Import Int32.

Lemma ToInt32_mod z : ToInt32 z mod 2 ^ 32 = z mod 2 ^ 32.
Proof.
  unfold ToInt32. destruct (z mod 2 ^ 32 <? 2 ^ 31).
  - apply Z.mod_mod. lia.
  - replace (z mod 2 ^ 32 - 2 ^ 32) with (z mod 2 ^ 32 + (-1) * 2 ^ 32) by lia.
    rewrite Z.mod_add by lia. apply Z.mod_mod. lia.
Qed.

Lemma ToInt32_range z : - 2 ^ 31 <= ToInt32 z < 2 ^ 31.
Proof.
  unfold ToInt32.
  pose proof (Z.mod_pos_bound z (2 ^ 32) ltac:(lia)).
  destruct (Z.ltb_spec (z mod 2 ^ 32) (2 ^ 31)); lia.
Qed.

Lemma ToInt32_small z : - 2 ^ 31 <= z < 2 ^ 31 -> ToInt32 z = z.
Proof.
  intros Hz. unfold ToInt32.
  destruct (Z.ltb_spec (z mod 2 ^ 32) (2 ^ 31)) as [H|H];
    revert H; Z.div_mod_to_equations; lia.
Qed.

Lemma ToInt32_idemp z : is_int32 (ToInt32 z).
Proof. apply ToInt32_small, ToInt32_range. Qed.

Lemma ToInt32_testbit z i :
  0 <= i < 32 -> Z.testbit (ToInt32 z) i = Z.testbit z i.
Proof.
  intros Hi.
  rewrite <- (Z.mod_pow2_bits_low (ToInt32 z) 32 i) by lia.
  rewrite ToInt32_mod. apply Z.mod_pow2_bits_low. lia.
Qed.

Lemma mod_eq_of_bits x y :
  (forall i, 0 <= i < 32 -> Z.testbit x i = Z.testbit y i) ->
  x mod 2 ^ 32 = y mod 2 ^ 32.
Proof.
  intros H. apply Z.bits_inj'. intros i Hi.
  destruct (Z.lt_ge_cases i 32).
  - rewrite !Z.mod_pow2_bits_low by lia. apply H. lia.
  - rewrite !Z.mod_pow2_bits_high by lia. reflexivity.
Qed.

(** Two 32-bit integers with the same 32 bits are equal. *)
Lemma int32_ext x y :
  is_int32 x -> is_int32 y ->
  (forall i, 0 <= i < 32 -> Z.testbit x i = Z.testbit y i) -> x = y.
Proof.
  intros Hx Hy H. apply mod_eq_of_bits in H.
  rewrite <- Hx, <- Hy. unfold ToInt32. rewrite H. reflexivity.
Qed.

Lemma band_int32 a b : is_int32 (band a b).
Proof. apply ToInt32_idemp. Qed.

Lemma bor_int32 a b : is_int32 (bor a b).
Proof. apply ToInt32_idemp. Qed.

Lemma band_testbit a b i :
  0 <= i < 32 -> Z.testbit (band a b) i = Z.testbit a i && Z.testbit b i.
Proof.
  intros Hi. unfold band.
  rewrite ToInt32_testbit, Z.land_spec, !ToInt32_testbit by lia. reflexivity.
Qed.

Lemma bor_testbit a b i :
  0 <= i < 32 -> Z.testbit (bor a b) i = Z.testbit a i || Z.testbit b i.
Proof.
  intros Hi. unfold bor.
  rewrite ToInt32_testbit, Z.lor_spec, !ToInt32_testbit by lia. reflexivity.
Qed.

Lemma bnot_testbit a i :
  0 <= i < 32 -> Z.testbit (bnot a) i = negb (Z.testbit a i).
Proof.
  intros Hi. unfold bnot.
  rewrite ToInt32_testbit, Z.lnot_spec, ToInt32_testbit by lia. reflexivity.
Qed.

(** The shift count of [1 << location]. *)
Lemma shift_count location : Z.land (ToUint32 location) 31 = location mod 32.
Proof.
  unfold ToUint32. change 31 with (Z.ones 5).
  rewrite Z.land_ones by lia. change (2 ^ 5) with 32.
  apply Z.mod_mod_divide. exists 134217728. reflexivity.
Qed.

Lemma shl_1 location : shl 1 location = ToInt32 (2 ^ (location mod 32)).
Proof.
  unfold shl. rewrite shift_count.
  change (ToInt32 1) with 1. rewrite Z.shiftl_1_l. reflexivity.
Qed.

Lemma shl_1_testbit location i :
  0 <= i < 32 -> Z.testbit (shl 1 location) i = (location mod 32 =? i).
Proof.
  intros Hi. rewrite shl_1, ToInt32_testbit by lia.
  apply Z.pow2_bits_eqb. apply Z.mod_pos_bound. lia.
Qed.

(** A 32-bit integer is zero exactly when none of its 32 bits is set. *)
Lemma int32_zero_bits x :
  is_int32 x -> (forall i, 0 <= i < 32 -> Z.testbit x i = false) -> x = 0.
Proof.
  intros Hx H. apply int32_ext; [done | done |].
  intros i Hi. rewrite Z.bits_0. auto.
Qed.

Lemma int32_nonzero_bit x :
  is_int32 x -> x <> 0 -> exists i, 0 <= i < 32 /\ Z.testbit x i = true.
Proof.
  intros Hx Hne.
  destruct (existsb (Z.testbit x) (seqZ 0 32)) eqn:E.
  - apply existsb_exists in E as (i & Hin & Hb).
    exists i. split; [|done].
    apply list_elem_of_In, elem_of_seqZ in Hin. lia.
  - exfalso. apply Hne, int32_zero_bits; [done|].
    intros i Hi. destruct (Z.testbit x i) eqn:Eb; [|done].
    assert (existsb (Z.testbit x) (seqZ 0 32) = true); [|congruence].
    apply existsb_exists. exists i. split; [|done].
    apply list_elem_of_In, elem_of_seqZ. lia.
Qed.

Lemma shl_1_nonzero location : shl 1 location <> 0.
Proof.
  intros H.
  pose proof (Z.mod_pos_bound location 32 ltac:(lia)).
  pose proof (shl_1_testbit location (location mod 32) ltac:(lia)) as Hb.
  rewrite H, Z.bits_0, Z.eqb_refl in Hb. discriminate.
Qed.

End Int32Facts.

(** ** The loops over [Object.keys] *)

Section Loops.

Implicit Types (m : gmap string Z) (w : KeyWatcher) (k key : string).

Lemma Object_keys_elem m k : k ∈ Object_keys m <-> is_Some (m !! k).
Proof.
  unfold Object_keys. rewrite list_elem_of_fmap. split.
  - intros ([k' v] & -> & Hin). apply elem_of_map_to_list in Hin. eauto.
  - intros [v Hv]. exists (k, v). split; [done|]. by apply elem_of_map_to_list.
Qed.

Lemma foldl_delete_lookup (ks : list string) m k :
  foldl (fun acc activeKey => delete activeKey acc) m ks !! k
  = if decide (k ∈ ks) then None else m !! k.
Proof.
  revert m. induction ks as [|a ks IH]; intros m; simpl.
  - destruct (decide (k ∈ [])) as [H|H]; [by apply elem_of_nil in H | done].
  - rewrite IH. destruct (decide (k ∈ ks)) as [Hin|Hin].
    + rewrite decide_True; [done | by right].
    + destruct (decide (k = a)) as [->|Hne].
      * rewrite decide_True by left. apply lookup_delete_eq.
      * rewrite decide_False; [by apply lookup_delete_ne|].
        rewrite elem_of_cons. tauto.
Qed.

Lemma removeAll_activeKeys w : activeKeys (_removeAll w) = ∅.
Proof.
  unfold _removeAll. simpl. apply map_eq. intros k.
  rewrite foldl_delete_lookup, lookup_empty.
  destruct (decide (k ∈ Object_keys (activeKeys w))) as [H|H]; [done|].
  destruct (activeKeys w !! k) eqn:E; [|done].
  exfalso. apply H, Object_keys_elem. eauto.
Qed.

Lemma removeAll_dispatched w : dispatched (_removeAll w) = S (dispatched w).
Proof. reflexivity. Qed.

Lemma removeAll_warnings w : warnings (_removeAll w) = warnings w.
Proof. reflexivity. Qed.

Lemma removeUnnamed_body_eq (b : bool) m k :
  removeUnnamed_body (b, m) k
  = (b || negb (_isNamedKey k), if _isNamedKey k then m else delete k m).
Proof.
  unfold removeUnnamed_body. destruct (_isNamedKey k); simpl.
  - by rewrite orb_false_r.
  - by rewrite orb_true_r.
Qed.

Lemma foldl_removeUnnamed_flag (ks : list string) (b : bool) m :
  (foldl removeUnnamed_body (b, m) ks).1
  = b || existsb (fun k => negb (_isNamedKey k)) ks.
Proof.
  revert b m. induction ks as [|a ks IH]; intros b m; cbn [foldl existsb].
  - by rewrite orb_false_r.
  - rewrite removeUnnamed_body_eq, IH. by rewrite orb_assoc.
Qed.

Lemma foldl_removeUnnamed_lookup (ks : list string) (b : bool) m k :
  (foldl removeUnnamed_body (b, m) ks).2 !! k
  = if decide (k ∈ ks /\ _isNamedKey k = false) then None else m !! k.
Proof.
  revert b m. induction ks as [|a ks IH]; intros b m; cbn [foldl].
  - rewrite decide_False; [done|]. intros [H _]. by apply elem_of_nil in H.
  - rewrite removeUnnamed_body_eq, IH.
    destruct (_isNamedKey a) eqn:Ea.
    + apply decide_ext. rewrite elem_of_cons.
      split; [tauto|]. intros [[->|H] Hk]; [congruence | tauto].
    + destruct (decide (k = a)) as [->|Hne].
      * rewrite lookup_delete_eq.
        rewrite (decide_True (P := a ∈ a :: ks /\ _)).
        -- by destruct (decide _).
        -- split; [left | done].
      * rewrite lookup_delete_ne by done. apply decide_ext.
        rewrite elem_of_cons. split; [tauto|].
        intros [[?|?] ?]; [done | tauto].
Qed.

Lemma removeUnnamedKeys_spec w :
  _removeUnnamedKeys w
  = (hasUnnamed (activeKeys w), setActiveKeys (namedOnly (activeKeys w)) w).
Proof.
  unfold _removeUnnamedKeys.
  destruct (foldl removeUnnamed_body (false, activeKeys w)
                  (Object_keys (activeKeys w))) as [removed m'] eqn:E.
  pose proof (foldl_removeUnnamed_flag (Object_keys (activeKeys w)) false
                (activeKeys w)) as Hf.
  rewrite E in Hf. simpl in Hf. subst removed. f_equal. f_equal.
  apply map_eq. intros k.
  pose proof (foldl_removeUnnamed_lookup (Object_keys (activeKeys w)) false
                (activeKeys w) k) as Hl.
  rewrite E in Hl. simpl in Hl. rewrite Hl. unfold namedOnly.
  destruct (activeKeys w !! k) as [v|] eqn:Ek.
  - destruct (decide (k ∈ Object_keys (activeKeys w) /\ _isNamedKey k = false))
      as [H|H].
    + symmetry. apply map_lookup_filter_None. right.
      intros x _. simpl. destruct H as [_ ->]. done.
    + symmetry. apply map_lookup_filter_Some. split; [done|]. simpl.
      destruct (_isNamedKey k) eqn:En; [done|].
      exfalso. apply H. split; [|done]. apply Object_keys_elem. eauto.
  - destruct (decide (k ∈ Object_keys (activeKeys w) /\ _isNamedKey k = false));
      symmetry; apply map_lookup_filter_None; by left.
Qed.

End Loops.

(** ** The handlers in closed form *)

Section Handlers.

Implicit Types (m : gmap string Z) (w : KeyWatcher) (k key : string).

Lemma setActiveKeys_id w : setActiveKeys (activeKeys w) w = w.
Proof. by destruct w. Qed.

Lemma handleModifiers_spec key w :
  _handleModifiers key w
  = ((if String.eqb key "Dead" then None else Some key,
      _isNamedKey key && hasUnnamed (activeKeys w)),
     setActiveKeys (afterModifiers key (activeKeys w)) w).
Proof.
  unfold _handleModifiers, afterModifiers. destruct (_isNamedKey key); simpl.
  - by rewrite removeUnnamedKeys_spec.
  - by rewrite setActiveKeys_id.
Qed.

Lemma truthyKey_spec key :
  truthyKey (if String.eqb key "Dead" then None else Some key)
  = if tracked key then Some key else None.
Proof.
  unfold tracked. destruct (String.eqb_spec key "Dead") as [->|Hd]; [done|].
  destruct (String.eqb_spec key EmptyString) as [->|He]; [done|].
  simpl. destruct key; [done | done].
Qed.

Lemma band_zero_l (b : Z) : Int32.band 0 b = 0.
Proof. reflexivity. Qed.

Lemma proto_inherited key :
  String.eqb key "__proto__" = true -> inheritedMember key = true.
Proof. by intros ->%String.eqb_eq. Qed.

Lemma handleKeydown_eq key location w :
  _handleKeydown key location w
  = let m := afterModifiers key (activeKeys w) in
    let c := _isNamedKey key && hasUnnamed (activeKeys w) in
    let b := Int32.shl 1 location in
    if tracked key then
      if inheritsOnly m key then
        notify c (setActiveKeys
                    (if String.eqb key "__proto__" then m
                     else <[key := Int32.bor 0 b]> m) w)
      else
        let v := orZero (m !! key) in
        if Int32.band v b =? 0
        then notify ((v =? 0) || c) (setActiveKeys (<[key := Int32.bor v b]> m) w)
        else notify c (setActiveKeys (<[key := v]> m) w)
    else notify c (setActiveKeys m w).
Proof.
  unfold _handleKeydown. rewrite handleModifiers_spec, truthyKey_spec.
  cbv zeta. destruct (tracked key); [|done].
  cbn [activeKeys setActiveKeys].
  set (m := afterModifiers key (activeKeys w)).
  set (c := _isNamedKey key && hasUnnamed (activeKeys w)).
  unfold inheritsOnly, getProperty.
  destruct (m !! key) as [n|] eqn:Ek.
  - rewrite bool_decide_eq_false_2 by done. cbn [andb].
    assert (valueOrZero (VNumber n) = VNumber (orZero (Some n))) as ->.
    { unfold valueOrZero, orZero. cbn. by destruct (n =? 0). }
    set (v := orZero (Some n)).
    unfold assignProperty, setNumber, getProperty. rewrite Ek.
    rewrite bool_decide_eq_false_2, andb_false_r by done.
    rewrite lookup_insert_eq. cbn [numberOf].
    destruct (Int32.band v (Int32.shl 1 location) =? 0); [|done].
    rewrite bool_decide_eq_false_2, andb_false_r by done.
    rewrite insert_insert_eq. cbn [truthyValue]. by destruct (v =? 0).
  - rewrite bool_decide_eq_true_2 by done. cbn [andb].
    destruct (inheritedMember key) eqn:Ei.
    + cbn [valueOrZero truthyValue]. unfold assignProperty, getProperty.
      rewrite Ek, Ei. cbn [numberOf]. rewrite band_zero_l. cbn [Z.eqb].
      unfold setNumber. rewrite Ek, bool_decide_eq_true_2, andb_true_r by done.
      by destruct (String.eqb key "__proto__").
    + assert (String.eqb key "__proto__" = false) as Ep.
      { destruct (String.eqb key "__proto__") eqn:E; [|done].
        apply proto_inherited in E. congruence. }
      cbn [valueOrZero truthyValue Z.eqb negb].
      unfold assignProperty, setNumber, getProperty. rewrite Ep. cbn [andb].
      rewrite lookup_insert_eq. cbn [numberOf].
      change (orZero None) with 0. rewrite band_zero_l. cbn [Z.eqb orb].
      by rewrite insert_insert_eq.
Qed.

Lemma handleKeyup_eq key location w :
  _handleKeyup key location w
  = let m := afterModifiers key (activeKeys w) in
    let c := _isNamedKey key && hasUnnamed (activeKeys w) in
    if tracked key && inheritsOnly m key && negb (String.eqb key "__proto__")
    then notify true (setActiveKeys m w)
    else if tracked key && truthy (m !! key) then
      let v := Int32.band (bitmask m key) (Int32.bnot (Int32.shl 1 location)) in
      if v =? 0
      then notify true (setActiveKeys (delete key m) w)
      else notify c (setActiveKeys (<[key := v]> m) w)
    else notify c (setActiveKeys m w).
Proof.
  unfold _handleKeyup. rewrite handleModifiers_spec, truthyKey_spec.
  cbv zeta. destruct (tracked key); [|done].
  cbn [activeKeys setActiveKeys andb].
  set (m := afterModifiers key (activeKeys w)).
  set (c := _isNamedKey key && hasUnnamed (activeKeys w)).
  unfold inheritsOnly, getProperty, bitmask.
  destruct (m !! key) as [n|] eqn:Ek.
  - rewrite bool_decide_eq_false_2 by done. cbn [andb truthyValue truthy].
    destruct (negb (n =? 0)); [|done].
    unfold setNumber. rewrite Ek.
    rewrite bool_decide_eq_false_2, andb_false_r by done.
    rewrite lookup_insert_eq. cbn [numberOf default from_option id truthyValue].
    destruct (_ =? 0); cbn [negb]; [|done].
    by rewrite delete_insert_eq.
  - rewrite bool_decide_eq_true_2 by done. cbn [andb truthy].
    destruct (inheritedMember key) eqn:Ei; [|done].
    cbn [truthyValue numberOf andb]. rewrite band_zero_l.
    unfold setNumber. rewrite Ek, bool_decide_eq_true_2, andb_true_r by done.
    destruct (String.eqb key "__proto__") eqn:Ep; cbn [negb].
    + rewrite Ek. done.
    + rewrite lookup_insert_eq. cbn [truthyValue Z.eqb negb].
      rewrite delete_insert_eq, delete_id by done. done.
Qed.

Lemma keyup_guard_false key (m : gmap string Z) :
  inheritedFunction key = false ->
  tracked key && inheritsOnly m key && negb (String.eqb key "__proto__")
  = false.
Proof.
  unfold inheritedFunction, inheritsOnly. intros H.
  rewrite <- !andb_assoc, H. by rewrite !andb_false_r.
Qed.

End Handlers.

(** ** Named and unnamed keys in the object *)

Section Named.

Implicit Types (m : gmap string Z) (w : KeyWatcher) (k key : string).

Lemma hasUnnamed_true m :
  hasUnnamed m = true <-> exists k, is_Some (m !! k) /\ _isNamedKey k = false.
Proof.
  unfold hasUnnamed. rewrite existsb_exists. split.
  - intros (k & Hin & Hk). exists k. split.
    + by apply Object_keys_elem, list_elem_of_In.
    + by apply negb_true_iff.
  - intros (k & Hin & Hk). exists k. split.
    + by apply list_elem_of_In, Object_keys_elem.
    + by apply negb_true_iff.
Qed.

Lemma hasUnnamed_false m :
  hasUnnamed m = false <-> forall k, is_Some (m !! k) -> _isNamedKey k = true.
Proof.
  split.
  - intros H k Hk. destruct (_isNamedKey k) eqn:E; [done|].
    assert (hasUnnamed m = true) by (apply hasUnnamed_true; eauto).
    congruence.
  - intros H. destruct (hasUnnamed m) eqn:E; [|done].
    apply hasUnnamed_true in E as (k & Hk & Hn). rewrite (H k Hk) in Hn. done.
Qed.

Lemma namedOnly_lookup m k :
  namedOnly m !! k = if _isNamedKey k then m !! k else None.
Proof.
  unfold namedOnly. destruct (_isNamedKey k) eqn:E.
  - destruct (m !! k) as [v|] eqn:Ek.
    + by apply map_lookup_filter_Some.
    + apply map_lookup_filter_None. by left.
  - apply map_lookup_filter_None. right. intros x _. simpl. congruence.
Qed.

Lemma namedOnly_id m : hasUnnamed m = false -> namedOnly m = m.
Proof.
  intros H. apply map_eq. intros k. rewrite namedOnly_lookup.
  destruct (_isNamedKey k) eqn:E; [done|].
  destruct (m !! k) eqn:Ek; [|done].
  rewrite hasUnnamed_false in H. rewrite H in E by eauto. done.
Qed.

Lemma hasUnnamed_namedOnly m : hasUnnamed (namedOnly m) = false.
Proof.
  apply hasUnnamed_false. intros k [v Hv]. rewrite namedOnly_lookup in Hv.
  by destruct (_isNamedKey k).
Qed.

Lemma afterModifiers_lookup key m k :
  afterModifiers key m !! k
  = if _isNamedKey key && negb (_isNamedKey k) then None else m !! k.
Proof.
  unfold afterModifiers. destruct (_isNamedKey key); [|done].
  rewrite namedOnly_lookup. by destruct (_isNamedKey k).
Qed.

Lemma afterModifiers_id key m :
  _isNamedKey key && hasUnnamed m = false -> afterModifiers key m = m.
Proof.
  unfold afterModifiers. destruct (_isNamedKey key); [|done].
  simpl. apply namedOnly_id.
Qed.

Lemma activeKeys_notify c w : activeKeys (notify c w) = activeKeys w.
Proof. by destruct c. Qed.

Lemma dispatched_notify c w :
  dispatched (notify c w) = (dispatched w + if c then 1 else 0)%nat.
Proof. destruct c; simpl; lia. Qed.

End Named.

(** ** Focus loss *)

(** Whatever the object holds, [_handleBlur] empties it and dispatches one
    [change] event. *)
Lemma handleBlur_always (w : KeyWatcher) :
  activeKeys (handle Blur w) = ∅ /\ notifications Blur w = 1%nat.
Proof.
  split.
  - apply removeAll_activeKeys.
  - unfold notifications, handle, _handleBlur.
    rewrite removeAll_dispatched. lia.
Qed.

(** C1. A blur event delivered to a new watcher, whose object is empty:
    the object stays empty and one [change] event is dispatched all the same,
    since [_removeAll] calls [_dispatch] without looking at what it
    removed. *)
Theorem blur_on_empty_dispatches :
  activeKeys newKeyWatcher = ∅ /\
  handleEvent (toEvent Blur) newKeyWatcher
  = Normal {| activeKeys := ∅; dispatched := 1; warnings := [] |} /\
  notifications Blur newKeyWatcher = 1%nat.
Proof. split; [done|]. split; by vm_compute. Qed.

(** ** The entry point *)

Lemma handleEvent_toEvent (e : KeyEvent) (w : KeyWatcher) :
  handleEvent (toEvent e) w = Normal (handle e w).
Proof. by destruct e. Qed.

(** When no member answers to the name built from the type, a line is
    written with [console.warn] and nothing else changes. *)
Lemma handleEvent_no_member (c : ascii) (rest : string) (key : option string)
    (location : Z) (w : KeyWatcher) :
  member ("_handle" ++ String (toUpperCase c) rest) = None ->
  exists line,
    handleEvent (mkEvent (String c rest) key location) w
    = Normal (console_warn line w).
Proof. intros H. unfold handleEvent. simpl in *. rewrite H. eauto. Qed.

(** C4. An event of type ["modifiers"] is none of keydown, keyup and blur.
    The name built for it is [_handleModifiers], a member of the watcher that
    is not an event handler: it is called with the event, and the call throws
    a [TypeError]; nothing is written with [console.warn]. *)
Theorem handleEvent_modifiers_throws (key : option string) (location : Z)
    (w : KeyWatcher) :
  handleEvent (mkEvent "modifiers" key location) w = ThrowTypeError.
Proof. reflexivity. Qed.

(** ** Two locations of one key *)

(** C3, as the handlers run it: from a new watcher, key-down of Shift at
    location 1 gives [{Shift: 0b010}] and dispatches one [change] event;
    key-down of Shift at location 2 gives [{Shift: 0b110}] and dispatches
    none, the key being active already; key-up at location 1 gives
    [{Shift: 0b100}], the entry stays and nothing is dispatched; key-up at
    location 2 gives the empty object and dispatches one [change] event. *)
Theorem shift_two_locations :
  let w0 := newKeyWatcher in
  let w1 := handle (KeyDown "Shift" 1) w0 in
  let w2 := handle (KeyDown "Shift" 2) w1 in
  let w3 := handle (KeyUp "Shift" 1) w2 in
  let w4 := handle (KeyUp "Shift" 2) w3 in
  activeKeys w1 = {[ "Shift" := 2 ]} /\
  notifications (KeyDown "Shift" 1) w0 = 1%nat /\
  activeKeys w2 = {[ "Shift" := 6 ]} /\
  notifications (KeyDown "Shift" 2) w1 = 0%nat /\
  activeKeys w3 = {[ "Shift" := 4 ]} /\
  notifications (KeyUp "Shift" 1) w2 = 0%nat /\
  activeKeys w4 = ∅ /\
  notifications (KeyUp "Shift" 2) w3 = 1%nat.
Proof. repeat split; by vm_compute. Qed.

(** C3 as it is stated does not hold: no [change] event follows the second
    key-down. *)
Lemma shift_second_keydown_silent :
  let w0 := newKeyWatcher in
  let w1 := handle (KeyDown "Shift" 1) w0 in
  let w2 := handle (KeyDown "Shift" 2) w1 in
  ~ (activeKeys w2 = {[ "Shift" := 6 ]} /\
     (1 <= notifications (KeyDown "Shift" 1) w0)%nat /\
     (1 <= notifications (KeyDown "Shift" 2) w1)%nat).
Proof.
  intros w0 w1 w2 (_ & _ & H).
  assert (notifications (KeyDown "Shift" 2) w1 = 0%nat) as E by by vm_compute.
  rewrite E in H. lia.
Qed.

(** ** Key-up of a key that is not active *)

(** C5, as the handler runs it, for a key that is not the name of a function
    that the object inherits from [Object.prototype]: a key-up whose key is
    not active leaves every entry in place and dispatches nothing when the
    key is not a named key or no unnamed key is active; the key-up of a named
    key removes the active unnamed keys, keeps every other entry, and
    dispatches one [change] event exactly when it removed one. *)
Theorem keyup_inactive (key : string) (location : Z) (w : KeyWatcher) :
  inheritedFunction key = false ->
  truthy (activeKeys w !! key) = false ->
  let w' := handle (KeyUp key location) w in
  (forall k, activeKeys w' !! k
             = if _isNamedKey key && negb (_isNamedKey k) then None
               else activeKeys w !! k) /\
  notifications (KeyUp key location) w
  = (if _isNamedKey key && hasUnnamed (activeKeys w) then 1 else 0)%nat /\
  (_isNamedKey key && hasUnnamed (activeKeys w) = false -> w' = w).
Proof.
  intros Hi Hk w'.
  assert (w' = notify (_isNamedKey key && hasUnnamed (activeKeys w))
                 (setActiveKeys (afterModifiers key (activeKeys w)) w)) as Hw'.
  { subst w'. cbn [handle]. rewrite handleKeyup_eq. cbv zeta.
    rewrite keyup_guard_false by done.
    rewrite afterModifiers_lookup.
    destruct (_isNamedKey key && negb (_isNamedKey key));
      [by rewrite andb_false_r | by rewrite Hk, andb_false_r]. }
  split; [|split].
  - intros k. rewrite Hw', activeKeys_notify. apply afterModifiers_lookup.
  - unfold notifications. fold w'. rewrite Hw', dispatched_notify. simpl. lia.
  - intros Hc. rewrite Hw', Hc, afterModifiers_id by done.
    apply setActiveKeys_id.
Qed.

Lemma keyup_inactive_witness :
  let w := setActiveKeys {[ "b" := 1 ]} newKeyWatcher in
  handle (KeyUp "a" 0) w = w.
Proof.
  intros w.
  apply (keyup_inactive "a" 0 w); reflexivity.
Defined.

(** C5 as it is stated does not hold: after key-down of [a], Shift is not
    active, and yet its key-up removes [a] and dispatches a [change]
    event. *)
Lemma keyup_inactive_named_clears :
  let w := replay [KeyDown "a" 0] newKeyWatcher in
  activeKeys w !! "Shift" = None /\
  activeKeys w = {[ "a" := 1 ]} /\
  activeKeys (handle (KeyUp "Shift" 1) w) = ∅ /\
  notifications (KeyUp "Shift" 1) w = 1%nat.
Proof. repeat split; by vm_compute. Qed.

(** ** Key-down of a named key *)

(** C6. After the key-down of a named key no unnamed key is in the object,
    whatever the object held; and from [{a: 1}], key-down of Shift at
    location 1 gives [{Shift: 2}] and dispatches exactly one [change]
    event. *)
Theorem named_keydown_clears_unnamed (key : string) (location : Z)
    (w : KeyWatcher) :
  _isNamedKey key = true ->
  (forall k, _isNamedKey k = false ->
             activeKeys (handle (KeyDown key location) w) !! k = None) /\
  (let wa := setActiveKeys {[ "a" := 1 ]} newKeyWatcher in
   activeKeys (handle (KeyDown "Shift" 1) wa) = {[ "Shift" := 2 ]} /\
   notifications (KeyDown "Shift" 1) wa = 1%nat).
Proof.
  intros Hn. split; [|split; by vm_compute].
  intros k Hk. cbn [handle]. rewrite handleKeydown_eq. cbv zeta.
  assert (key <> k) as Hne by (intros ->; congruence).
  assert (afterModifiers key (activeKeys w) !! k = None) as Hm.
  { rewrite afterModifiers_lookup, Hn, Hk. done. }
  repeat match goal with
         | |- context [if ?b then _ else _] => destruct b
         end;
    rewrite activeKeys_notify; cbn [activeKeys setActiveKeys];
    rewrite ?lookup_insert_ne by done; done.
Qed.

Lemma named_keydown_clears_unnamed_witness :
  activeKeys (handle (KeyDown "Control" 1)
                (setActiveKeys {[ "a" := 1; "Alt" := 2 ]} newKeyWatcher))
    !! "a" = None.
Proof.
  apply (named_keydown_clears_unnamed "Control" 1
           (setActiveKeys {[ "a" := 1; "Alt" := 2 ]} newKeyWatcher));
    reflexivity.
Defined.

(** ** Repeated key-down *)

Section Repeat.

Implicit Types (m : gmap string Z) (w : KeyWatcher) (k key : string).

Lemma orZero_Some (x : Z) : orZero (Some x) = x.
Proof.
  unfold orZero, truthy. simpl. destruct (Z.eqb_spec x 0); simpl; congruence.
Qed.

Lemma and_or_shl_nonzero (v location : Z) :
  Int32.band (Int32.bor v (Int32.shl 1 location)) (Int32.shl 1 location) <> 0.
Proof.
  intros H.
  pose proof (Z.mod_pos_bound location 32 ltac:(lia)) as Hi.
  pose proof (Int32Facts.band_testbit
                (Int32.bor v (Int32.shl 1 location)) (Int32.shl 1 location)
                (location mod 32) Hi) as Hb.
  rewrite H, Z.bits_0, Int32Facts.bor_testbit, Int32Facts.shl_1_testbit,
    Z.eqb_refl, orb_true_r in Hb by done.
  discriminate.
Qed.

(** A key-down does nothing at all when it has no unnamed key to clear and
    the bit of its location is set already, or the key is [__proto__], which
    gets no entry. *)
Lemma keydown_noop key location w :
  _isNamedKey key && hasUnnamed (activeKeys w) = false ->
  (tracked key = true ->
   (exists x, activeKeys w !! key = Some x
              /\ Int32.band x (Int32.shl 1 location) <> 0)
   \/ (String.eqb key "__proto__" = true /\ activeKeys w !! key = None)) ->
  handle (KeyDown key location) w = w.
Proof.
  intros Hc Hbit. cbn [handle]. rewrite handleKeydown_eq. cbv zeta.
  rewrite Hc, afterModifiers_id by done.
  destruct (tracked key); [|apply setActiveKeys_id].
  destruct Hbit as [(x & Hx & Hand)|[Hp Hk]]; [done| |].
  - unfold inheritsOnly. rewrite Hx, bool_decide_eq_false_2 by done.
    cbn [andb]. rewrite orZero_Some.
    destruct (Z.eqb_spec (Int32.band x (Int32.shl 1 location)) 0); [done|].
    rewrite insert_id by done. apply setActiveKeys_id.
  - unfold inheritsOnly.
    rewrite Hk, bool_decide_eq_true_2, proto_inherited, Hp by done.
    apply setActiveKeys_id.
Qed.

Lemma hasUnnamed_insert_named key (x : Z) m :
  _isNamedKey key = true -> hasUnnamed m = false ->
  hasUnnamed (<[key := x]> m) = false.
Proof.
  rewrite !hasUnnamed_false. intros Hn H k [v Hv].
  destruct (decide (key = k)) as [<-|Hne]; [done|].
  rewrite lookup_insert_ne in Hv by done. eauto.
Qed.

End Repeat.

(** A key-down handled right after a key-down of the same key and location,
    with no event in between, leaves the object as it is and dispatches no
    [change] event. *)
Theorem keydown_twice (key : string) (location : Z) (w : KeyWatcher) :
  let w1 := handle (KeyDown key location) w in
  activeKeys (handle (KeyDown key location) w1) = activeKeys w1 /\
  notifications (KeyDown key location) w1 = 0%nat.
Proof.
  intros w1.
  assert (handle (KeyDown key location) w1 = w1) as E.
  { assert (hasUnnamed (afterModifiers key (activeKeys w)) = false
            \/ _isNamedKey key = false) as Hu.
    { unfold afterModifiers. destruct (_isNamedKey key); [left | by right].
      apply hasUnnamed_namedOnly. }
    pose proof (handleKeydown_eq key location w) as Hw1. cbv zeta in Hw1.
    change (_handleKeydown key location w) with w1 in Hw1. clearbody w1.
    set (m' := afterModifiers key (activeKeys w)) in *.
    assert (forall x, _isNamedKey key && hasUnnamed (<[key := x]> m') = false)
      as Hins.
    { intros x. destruct (_isNamedKey key) eqn:En; [|done]. simpl.
      destruct Hu as [Hu|Hu]; [|done]. by apply hasUnnamed_insert_named. }
    assert (_isNamedKey key && hasUnnamed m' = false) as Hm'.
    { destruct (_isNamedKey key) eqn:En; [|done]. simpl.
      by destruct Hu as [Hu|Hu]. }
    destruct (tracked key) eqn:Et; revert Hw1.
    - destruct (inheritsOnly m' key) eqn:Ei.
      + destruct (String.eqb key "__proto__") eqn:Ep;
          intros ->; apply keydown_noop; rewrite activeKeys_notify;
          cbn [activeKeys setActiveKeys]; [done | | done |].
        * intros _. right. split; [done|].
          unfold inheritsOnly in Ei. apply andb_true_iff in Ei as [Ei _].
          by apply bool_decide_eq_true in Ei.
        * intros _. left. eexists. split; [apply lookup_insert_eq|].
          apply and_or_shl_nonzero.
      + set (v := orZero (m' !! key)).
        destruct (Z.eqb_spec (Int32.band v (Int32.shl 1 location)) 0)
          as [Hz|Hz];
          intros ->; apply keydown_noop; rewrite activeKeys_notify;
          cbn [activeKeys setActiveKeys]; [done | | done |].
        * intros _. left. eexists. split; [apply lookup_insert_eq|].
          apply and_or_shl_nonzero.
        * intros _. left. eexists. split; [apply lookup_insert_eq | done].
    - intros ->. apply keydown_noop; rewrite activeKeys_notify;
        cbn [activeKeys setActiveKeys]; [done | by rewrite Et]. }
  unfold notifications. rewrite E. split; [done | lia].
Qed.

(** C7 as it is stated does not hold: between the two key-downs of Shift at
    location 1 there is no key-up, and the second one removes [a] and
    dispatches a [change] event; and a key-down of [a] repeated after a blur
    puts [a] back and dispatches a [change] event. *)
Lemma keydown_repeat_after_other_event :
  (let mid := [KeyDown "a" 0] in
   let w := replay (KeyDown "Shift" 1 :: mid) newKeyWatcher in
   (KeyUp "Shift" 1 ∉ mid) /\
   activeKeys w = {[ "Shift" := 2; "a" := 1 ]} /\
   activeKeys (handle (KeyDown "Shift" 1) w) = {[ "Shift" := 2 ]} /\
   notifications (KeyDown "Shift" 1) w = 1%nat) /\
  (let mid := [Blur] in
   let w := replay (KeyDown "a" 0 :: mid) newKeyWatcher in
   (KeyUp "a" 0 ∉ mid) /\
   activeKeys w = ∅ /\
   activeKeys (handle (KeyDown "a" 0) w) = {[ "a" := 1 ]} /\
   notifications (KeyDown "a" 0) w = 1%nat).
Proof.
  split; (split; [rewrite list_elem_of_In; simpl; by intros [?|[]]
                 | repeat split; by vm_compute]).
Qed.

(** ** Locations modulo 32 *)

Lemma shl_1_congruent (l l' : Z) :
  l mod 32 = l' mod 32 -> Int32.shl 1 l = Int32.shl 1 l'.
Proof. intros H. by rewrite !Int32Facts.shl_1, H. Qed.

Lemma or_zero_shl_nonzero (location : Z) :
  Int32.bor 0 (Int32.shl 1 location) <> 0.
Proof.
  intros H.
  pose proof (Z.mod_pos_bound location 32 ltac:(lia)) as Hi.
  pose proof (Int32Facts.bor_testbit 0 (Int32.shl 1 location)
                (location mod 32) Hi) as Hb.
  rewrite H, Z.bits_0, Int32Facts.shl_1_testbit, Z.eqb_refl in Hb by done.
  discriminate.
Qed.

Lemma and_or_not_shl (location : Z) :
  Int32.band (Int32.bor 0 (Int32.shl 1 location))
            (Int32.bnot (Int32.shl 1 location)) = 0.
Proof.
  apply Int32Facts.int32_zero_bits; [apply Int32Facts.band_int32|].
  intros i Hi.
  rewrite Int32Facts.band_testbit, Int32Facts.bor_testbit,
    Int32Facts.bnot_testbit, Z.bits_0 by done.
  simpl. apply andb_negb_r.
Qed.

(** ** What a handler does to each entry *)

Section Entries.

Implicit Types (m : gmap string Z) (w : KeyWatcher) (k key : string).

(** The object after a key-down. *)
Lemma keydown_activeKeys key location w :
  activeKeys (handle (KeyDown key location) w)
  = let m := afterModifiers key (activeKeys w) in
    if tracked key then
      if inheritsOnly m key && String.eqb key "__proto__" then m
      else let v := orZero (m !! key) in
           <[key := if Int32.band v (Int32.shl 1 location) =? 0
                    then Int32.bor v (Int32.shl 1 location) else v]> m
    else m.
Proof.
  cbn [handle]. rewrite handleKeydown_eq. cbv zeta.
  destruct (tracked key); [|by rewrite activeKeys_notify].
  destruct (inheritsOnly (afterModifiers key (activeKeys w)) key) eqn:Ei;
    cbn [andb].
  - rewrite activeKeys_notify. cbn [activeKeys setActiveKeys].
    destruct (String.eqb key "__proto__"); [done|].
    unfold inheritsOnly in Ei. apply andb_true_iff in Ei as [Ei _].
    apply bool_decide_eq_true in Ei. rewrite Ei.
    change (orZero None) with 0. by rewrite band_zero_l.
  - destruct (_ =? 0); by rewrite activeKeys_notify.
Qed.

(** The object after a key-up. *)
Lemma keyup_activeKeys key location w :
  activeKeys (handle (KeyUp key location) w)
  = let m := afterModifiers key (activeKeys w) in
    if tracked key && truthy (m !! key) then
      let v := Int32.band (bitmask m key) (Int32.bnot (Int32.shl 1 location)) in
      if v =? 0 then delete key m else <[key := v]> m
    else m.
Proof.
  cbn [handle]. rewrite handleKeyup_eq. cbv zeta.
  destruct (tracked key && inheritsOnly (afterModifiers key (activeKeys w)) key
            && negb (String.eqb key "__proto__")) eqn:Eg.
  - rewrite activeKeys_notify. cbn [activeKeys setActiveKeys].
    apply andb_true_iff in Eg as [[_ Ei]%andb_true_iff _].
    unfold inheritsOnly in Ei. apply andb_true_iff in Ei as [Ei _].
    apply bool_decide_eq_true in Ei. rewrite Ei. cbn [truthy].
    by rewrite andb_false_r.
  - destruct (tracked key && truthy _); [|by rewrite activeKeys_notify].
    destruct (_ =? 0); by rewrite activeKeys_notify.
Qed.

Lemma keydown_lookup_other key location w k :
  tracked key = false \/ k <> key ->
  activeKeys (handle (KeyDown key location) w) !! k
  = afterModifiers key (activeKeys w) !! k.
Proof.
  intros H. rewrite keydown_activeKeys. cbv zeta.
  destruct (tracked key); [|done].
  destruct H as [H|H]; [done|].
  destruct (_ && _); [done|]. by rewrite lookup_insert_ne.
Qed.

Lemma keydown_lookup_key_gen key location w :
  tracked key = true ->
  inheritsOnly (afterModifiers key (activeKeys w)) key
  && String.eqb key "__proto__" = false ->
  activeKeys (handle (KeyDown key location) w) !! key
  = Some (let v := orZero (afterModifiers key (activeKeys w) !! key) in
          if Int32.band v (Int32.shl 1 location) =? 0
          then Int32.bor v (Int32.shl 1 location) else v).
Proof.
  intros Ht Hp. rewrite keydown_activeKeys. cbv zeta.
  rewrite Ht, Hp. by rewrite lookup_insert_eq.
Qed.

Lemma keydown_lookup_key key location w :
  tracked key = true -> String.eqb key "__proto__" = false ->
  activeKeys (handle (KeyDown key location) w) !! key
  = Some (let v := orZero (afterModifiers key (activeKeys w) !! key) in
          if Int32.band v (Int32.shl 1 location) =? 0
          then Int32.bor v (Int32.shl 1 location) else v).
Proof.
  intros Ht Hp. apply keydown_lookup_key_gen; [done|].
  by rewrite Hp, andb_false_r.
Qed.

(** A key-down of [__proto__] changes no entry of its own. *)
Lemma keydown_lookup_proto key location w :
  String.eqb key "__proto__" = true ->
  afterModifiers key (activeKeys w) !! key = None ->
  activeKeys (handle (KeyDown key location) w) !! key = None.
Proof.
  intros Hp Hk. rewrite keydown_activeKeys. cbv zeta.
  unfold inheritsOnly.
  rewrite Hk, bool_decide_eq_true_2, proto_inherited, Hp by done.
  cbn [andb]. by destruct (tracked key).
Qed.

Lemma keyup_lookup_other key location w k :
  tracked key = false \/ k <> key ->
  activeKeys (handle (KeyUp key location) w) !! k
  = afterModifiers key (activeKeys w) !! k.
Proof.
  intros H. rewrite keyup_activeKeys. cbv zeta.
  destruct (tracked key); cbn [andb]; [|done].
  destruct H as [H|H]; [done|].
  destruct (truthy _); [|done].
  destruct (_ =? 0); [by rewrite lookup_delete_ne | by rewrite lookup_insert_ne].
Qed.

Lemma keyup_lookup_key key location w :
  tracked key = true ->
  activeKeys (handle (KeyUp key location) w) !! key
  = let m := afterModifiers key (activeKeys w) in
    if truthy (m !! key) then
      let v := Int32.band (bitmask m key) (Int32.bnot (Int32.shl 1 location)) in
      if v =? 0 then None else Some v
    else m !! key.
Proof.
  intros Ht. rewrite keyup_activeKeys. cbv zeta. rewrite Ht. cbn [andb].
  destruct (truthy _); [|done].
  destruct (_ =? 0); [by rewrite lookup_delete_eq | by rewrite lookup_insert_eq].
Qed.

Lemma tracked_not_Dead key : tracked key = true -> key <> "Dead".
Proof. intros H ->. discriminate. Qed.

Lemma afterModifiers_None key m k :
  m !! k = None -> afterModifiers key m !! k = None.
Proof. intros H. rewrite afterModifiers_lookup, H. by destruct (_ && _). Qed.

(** No handler gives ["Dead"] an entry. *)
Lemma handle_no_Dead (e : KeyEvent) w :
  activeKeys w !! "Dead" = None -> activeKeys (handle e w) !! "Dead" = None.
Proof.
  intros H. destruct e as [key location|key location|].
  - rewrite keydown_lookup_other; [by apply afterModifiers_None|].
    destruct (tracked key) eqn:Et; [right | by left].
    intros E. by apply (tracked_not_Dead key).
  - rewrite keyup_lookup_other; [by apply afterModifiers_None|].
    destruct (tracked key) eqn:Et; [right | by left].
    intros E. by apply (tracked_not_Dead key).
  - cbn [handle]. unfold _handleBlur. by rewrite removeAll_activeKeys.
Qed.

Lemma replay_invariant (P : KeyWatcher -> Prop) :
  (forall e w, P w -> P (handle e w)) ->
  forall tr w, P w -> P (replay tr w).
Proof.
  intros Hstep tr. induction tr as [|e tr IH]; intros w Hw; [done|].
  apply IH, Hstep, Hw.
Qed.

Lemma well_formed_afterModifiers key m :
  well_formed m -> well_formed (afterModifiers key m).
Proof.
  intros Hm k v. rewrite afterModifiers_lookup.
  destruct (_ && _); [done | apply Hm].
Qed.

Lemma well_formed_orZero m k :
  well_formed m -> orZero (m !! k) = bitmask m k.
Proof.
  intros Hm. unfold bitmask. destruct (m !! k) as [v|] eqn:E; [|done].
  apply orZero_Some.
Qed.

Lemma well_formed_truthy m k :
  well_formed m -> truthy (m !! k) = false -> m !! k = None.
Proof.
  intros Hm. destruct (m !! k) as [v|] eqn:E; [|done]. simpl.
  destruct (Hm k v E) as [Hv _]. by destruct (Z.eqb_spec v 0).
Qed.

Lemma well_formed_bitmask m k :
  well_formed m -> Int32.is_int32 (bitmask m k).
Proof.
  intros Hm. unfold bitmask. destruct (m !! k) as [v|] eqn:E; simpl.
  - apply (Hm k v E).
  - reflexivity.
Qed.

(** Every handler keeps the stored values non-zero 32-bit integers. *)
Lemma handle_well_formed (e : KeyEvent) w :
  well_formed (activeKeys w) -> well_formed (activeKeys (handle e w)).
Proof.
  intros Hw. pose proof Hw as Hm.
  destruct e as [key location|key location|].
  - apply (well_formed_afterModifiers key) in Hm. intros k v.
    destruct (decide (tracked key = false \/ k <> key)) as [H|H].
    { rewrite keydown_lookup_other by done. apply Hm. }
    assert (tracked key = true /\ k = key) as [Ht ->].
    { destruct (tracked key); destruct (decide (k = key)); tauto. }
    destruct (inheritsOnly (afterModifiers key (activeKeys w)) key
              && String.eqb key "__proto__") eqn:Ep.
    { apply andb_true_iff in Ep as [Ei Ep].
      rewrite keydown_lookup_proto; [done | done |].
      unfold inheritsOnly in Ei. apply andb_true_iff in Ei as [Ei _].
      by apply bool_decide_eq_true in Ei. }
    rewrite keydown_lookup_key_gen by done. cbv zeta.
    rewrite well_formed_orZero by done.
    destruct (Z.eqb_spec (Int32.band (bitmask (afterModifiers key (activeKeys w))
                                       key) (Int32.shl 1 location)) 0)
      as [Hz|Hz]; intros [= <-].
    + split; [|apply Int32Facts.bor_int32].
      intros E.
      pose proof (Z.mod_pos_bound location 32 ltac:(lia)) as Hi.
      pose proof (Int32Facts.bor_testbit
                    (bitmask (afterModifiers key (activeKeys w)) key)
                    (Int32.shl 1 location) (location mod 32) Hi) as Hb.
      rewrite E, Z.bits_0, Int32Facts.shl_1_testbit, Z.eqb_refl,
        orb_true_r in Hb by done.
      discriminate.
    + split; [|by apply well_formed_bitmask].
      intros E. apply Hz. rewrite E. reflexivity.
  - apply (well_formed_afterModifiers key) in Hm. intros k v.
    destruct (decide (tracked key = false \/ k <> key)) as [H|H].
    { rewrite keyup_lookup_other by done. apply Hm. }
    assert (tracked key = true /\ k = key) as [Ht ->].
    { destruct (tracked key); destruct (decide (k = key)); tauto. }
    rewrite keyup_lookup_key by done. cbv zeta.
    destruct (truthy _); [|apply Hm].
    destruct (Z.eqb_spec (Int32.band (bitmask (afterModifiers key (activeKeys w))
                                       key)
                            (Int32.bnot (Int32.shl 1 location))) 0)
      as [Hz|Hz]; [done|].
    intros [= <-]. split; [done | apply Int32Facts.band_int32].
  - cbn [handle]. unfold _handleBlur. rewrite removeAll_activeKeys.
    intros k v. by rewrite lookup_empty.
Qed.

End Entries.

(** ** Invariants of the object *)

(** C8. Whatever sequence of key-down, key-up and blur events a new watcher
    has handled, ["Dead"] is not a key of its object.  The states between
    two handlings are the states after a finite sequence of events. *)
Theorem Dead_never_active (tr : list KeyEvent) :
  activeKeys (replay tr newKeyWatcher) !! "Dead" = None.
Proof.
  apply (replay_invariant (fun w => activeKeys w !! "Dead" = None));
    [apply handle_no_Dead | done].
Qed.

(** C9. Whatever sequence of key-down, key-up and blur events a new watcher
    has handled, at any locations, a key is in the object exactly when one of
    the 32 bits of its value is set, and no stored value is zero. *)
Theorem active_iff_bit_set (tr : list KeyEvent) (k : string) :
  let m := activeKeys (replay tr newKeyWatcher) in
  (k ∈ dom m <->
   exists i, 0 <= i < 32 /\ Z.testbit (bitmask m k) i = true) /\
  (forall v, m !! k = Some v -> v <> 0).
Proof.
  intros m.
  assert (well_formed m) as Hm.
  { apply (replay_invariant (fun w => well_formed (activeKeys w)));
      [apply handle_well_formed|].
    intros k' v. cbn. by rewrite lookup_empty. }
  split; [|intros v Hv; apply (Hm k v Hv)].
  rewrite elem_of_dom. unfold bitmask. split.
  - intros [v Hv]. rewrite Hv. cbn [default].
    destruct (Hm k v Hv) as [Hne Hint].
    by apply Int32Facts.int32_nonzero_bit.
  - intros (i & Hi & Hb). destruct (m !! k) as [v|]; [eauto|].
    cbn in Hb. rewrite Z.bits_0 in Hb. discriminate.
Qed.

(** ** Replaying key-downs and key-ups *)

Section Replay.

Implicit Types (m : gmap string Z) (w : KeyWatcher) (k key : string).
Implicit Types (h : gset (string * Z)) (tr : list KeyEvent).

(** A key-down sets the bit of its location in the value of its key. *)
Lemma keydown_bits key location w k i :
  well_formed (activeKeys w) -> tracked key = true ->
  String.eqb key "__proto__" = false ->
  0 <= location < 32 ->
  afterModifiers key (activeKeys w) = activeKeys w ->
  0 <= i < 32 ->
  Z.testbit (bitmask (activeKeys (handle (KeyDown key location) w)) k) i
  = Z.testbit (bitmask (activeKeys w) k) i
    || (bool_decide (k = key) && (location =? i)).
Proof.
  intros Hm Ht Hp Hl Hid Hi. unfold bitmask at 1.
  assert (location mod 32 = location) as Hmod by (apply Z.mod_small; lia).
  destruct (decide (k = key)) as [->|Hne].
  - rewrite bool_decide_eq_true_2 by done. cbn [andb].
    rewrite keydown_lookup_key by done. cbv zeta. cbn [default from_option id].
    rewrite Hid, well_formed_orZero by done.
    set (v := bitmask (activeKeys w) key).
    destruct (Z.eqb_spec (Int32.band v (Int32.shl 1 location)) 0) as [Hz|Hz].
    + rewrite Int32Facts.bor_testbit, Int32Facts.shl_1_testbit, Hmod by done.
      reflexivity.
    + destruct (Z.eqb_spec location i) as [<-|Hli]; [|by rewrite orb_false_r].
      rewrite orb_true_r. destruct (Z.testbit v location) eqn:Eb; [done|].
      exfalso. apply Hz.
      apply Int32Facts.int32_zero_bits; [apply Int32Facts.band_int32|].
      intros j Hj.
      rewrite Int32Facts.band_testbit, Int32Facts.shl_1_testbit, Hmod by done.
      destruct (Z.eqb_spec location j) as [<-|_];
        [by rewrite Eb | apply andb_false_r].
  - rewrite bool_decide_eq_false_2 by done. cbn [andb]. rewrite orb_false_r.
    rewrite keydown_lookup_other by (by right). by rewrite Hid.
Qed.

(** A key-up clears the bit of its location in the value of its key. *)
Lemma keyup_bits key location w k i :
  well_formed (activeKeys w) -> tracked key = true ->
  0 <= location < 32 ->
  afterModifiers key (activeKeys w) = activeKeys w ->
  0 <= i < 32 ->
  Z.testbit (bitmask (activeKeys (handle (KeyUp key location) w)) k) i
  = Z.testbit (bitmask (activeKeys w) k) i
    && negb (bool_decide (k = key) && (location =? i)).
Proof.
  intros Hm Ht Hl Hid Hi. unfold bitmask at 1.
  assert (location mod 32 = location) as Hmod by (apply Z.mod_small; lia).
  destruct (decide (k = key)) as [->|Hne].
  - rewrite bool_decide_eq_true_2 by done. cbn [andb].
    rewrite keyup_lookup_key by done. cbv zeta. rewrite Hid.
    set (v := bitmask (activeKeys w) key).
    assert (Z.testbit (Int32.band v (Int32.bnot (Int32.shl 1 location))) i
            = Z.testbit v i && negb (location =? i)) as Hb.
    { by rewrite Int32Facts.band_testbit, Int32Facts.bnot_testbit,
        Int32Facts.shl_1_testbit, Hmod. }
    destruct (truthy (activeKeys w !! key)) eqn:Etr.
    + destruct (Z.eqb_spec (Int32.band v (Int32.bnot (Int32.shl 1 location))) 0)
        as [Hz|Hz]; cbn [default from_option id]; [|done].
      rewrite <- Hb, Hz. reflexivity.
    + apply well_formed_truthy in Etr; [|done].
      subst v. unfold bitmask. rewrite Etr. cbn. by rewrite Z.bits_0.
  - rewrite bool_decide_eq_false_2 by done. cbn [andb negb].
    rewrite andb_true_r.
    rewrite keyup_lookup_other by (by right). by rewrite Hid.
Qed.

Lemma tracks_no_unnamed m h :
  tracks m h -> forallb (fun p => _isNamedKey p.1) (elements h) = true ->
  hasUnnamed m = false.
Proof.
  intros (Hm & _ & Hbits) Hall. apply hasUnnamed_false. intros k [v Hv].
  destruct (Hm k v Hv) as [Hne Hint].
  destruct (Int32Facts.int32_nonzero_bit v Hint Hne) as (i & Hi & Hb).
  assert ((k, i) ∈ h) as Hin.
  { apply Hbits; [done|]. unfold bitmask. by rewrite Hv. }
  rewrite forallb_forall in Hall.
  apply (Hall (k, i)). by apply list_elem_of_In, elem_of_elements.
Qed.

Lemma plain_tracked key location :
  plain (KeyDown key location) = true ->
  tracked key = true /\ String.eqb key "__proto__" = false
  /\ 0 <= location < 32.
Proof.
  unfold plain, tracked. rewrite !andb_true_iff, !negb_true_iff.
  intros [[[[-> ->] ->] ?%Z.leb_le] ?%Z.ltb_lt]. done.
Qed.

(** One event keeps the object in step with the held pairs. *)
Lemma tracks_step (e : KeyEvent) w h :
  tracks (activeKeys w) h -> plain e = true ->
  undisturbed_from h [e] = true ->
  tracks (activeKeys (handle e w)) (press h e).
Proof.
  intros Htr Hp Hu. pose proof Htr as (Hm & Hloc & Hbits).
  assert (forall key location,
            e = KeyDown key location \/ e = KeyUp key location ->
            afterModifiers key (activeKeys w) = activeKeys w) as Hid.
  { intros key location He. apply afterModifiers_id.
    destruct (_isNamedKey key) eqn:En; [|done]. cbn [andb].
    apply (tracks_no_unnamed _ h); [done|].
    cbn in Hu. rewrite andb_true_r in Hu.
    destruct He as [-> | ->]; by rewrite En in Hu. }
  split; [by apply handle_well_formed|].
  destruct e as [key location|key location|]; [| |done].
  - destruct (plain_tracked key location Hp) as (Ht & Hpr & Hl).
    split.
    + intros k l. cbn [press]. rewrite elem_of_union, elem_of_singleton.
      intros [[= -> ->]|Hin]; [done | by apply (Hloc k)].
    + intros k i Hi.
      rewrite (keydown_bits key location w k i) by eauto.
      cbn [press]. rewrite elem_of_union, elem_of_singleton, <- Hbits by done.
      rewrite orb_true_iff, andb_true_iff, bool_decide_eq_true, Z.eqb_eq.
      split; [intros [?|[-> ->]] | intros [[= -> ->]|?]]; tauto.
  - destruct (plain_tracked key location Hp) as (Ht & Hpr & Hl).
    split.
    + intros k l. cbn [press]. rewrite elem_of_difference.
      intros [Hin _]. by apply (Hloc k).
    + intros k i Hi.
      rewrite (keyup_bits key location w k i) by eauto.
      cbn [press].
      rewrite elem_of_difference, elem_of_singleton, <- Hbits by done.
      rewrite andb_true_iff, negb_true_iff, andb_false_iff,
        bool_decide_eq_false, Z.eqb_neq.
      split.
      * intros [Hb Hne]. split; [done|]. intros [= -> ->]. tauto.
      * intros [Hb Hne]. split; [done|].
        destruct (decide (k = key)) as [->|?]; [|by left].
        right. intros ->. by apply Hne.
Qed.

Lemma tracks_replay tr w h :
  tracks (activeKeys w) h -> forallb plain tr = true ->
  undisturbed_from h tr = true ->
  tracks (activeKeys (replay tr w)) (foldl press h tr).
Proof.
  revert w h. induction tr as [|e tr IH]; intros w h Htr Hp Hu; [done|].
  cbn [forallb] in Hp. apply andb_true_iff in Hp as [Hpe Hp].
  cbn [undisturbed_from] in Hu. apply andb_true_iff in Hu as [Hue Hu].
  apply IH; [|done|done].
  apply tracks_step; [done|done|].
  cbn [undisturbed_from]. by rewrite Hue.
Qed.

Lemma tracks_empty : tracks ∅ ∅.
Proof.
  split; [|split].
  - intros k v. by rewrite lookup_empty.
  - intros k l H. by apply not_elem_of_empty in H.
  - intros k i Hi. unfold bitmask. rewrite lookup_empty. cbn.
    rewrite Z.bits_0. split; [done|]. intros H.
    by apply not_elem_of_empty in H.
Qed.

Lemma tracks_dom m h : tracks m h -> dom m = set_map fst h.
Proof.
  intros (Hm & Hloc & Hbits). apply set_eq. intros k.
  rewrite elem_of_dom, elem_of_map. split.
  - intros [v Hv]. destruct (Hm k v Hv) as [Hne Hint].
    destruct (Int32Facts.int32_nonzero_bit v Hint Hne) as (i & Hi & Hb).
    exists (k, i). split; [done|].
    apply Hbits; [done|]. unfold bitmask. by rewrite Hv.
  - intros ([k' l] & -> & Hin). cbn.
    apply Hbits in Hin; [|by apply (Hloc k')].
    unfold bitmask in Hin. destruct (m !! k') as [v|]; [eauto|].
    cbn in Hin. rewrite Z.bits_0 in Hin. discriminate.
Qed.

(** The held pairs, in the words of the claim: a pair is held when the
    sequence has a key-down at it with no key-up at it afterwards. *)
Lemma held_spec tr k l :
  (k, l) ∈ held tr <->
  exists tr1 tr2, tr = (tr1 ++ KeyDown k l :: tr2)%list /\ (KeyUp k l ∉ tr2).
Proof.
  unfold held. induction tr as [|e tr IH] using rev_ind.
  - split.
    + intros H. by apply not_elem_of_empty in H.
    + intros (tr1 & tr2 & H & _). by destruct tr1.
  - rewrite foldl_app. cbn [foldl]. split.
    + intros Hin.
      assert (e = KeyDown k l \/ (e <> KeyUp k l /\ (k, l) ∈ foldl press ∅ tr))
        as [->|[Hne Hh]].
      { destruct e as [key location|key location|]; cbn [press] in Hin.
        - apply elem_of_union in Hin as [[= -> ->]%elem_of_singleton|Hin];
            [by left | by right].
        - apply elem_of_difference in Hin as [Hin Hne]. right.
          split; [|done]. intros [= -> ->]. apply Hne. by apply elem_of_singleton.
        - by right. }
      * exists tr, []. split; [done|]. apply not_elem_of_nil.
      * apply IH in Hh as (tr1 & tr2 & -> & Hno).
        exists tr1, (tr2 ++ [e])%list. split; [by rewrite <- app_assoc|].
        rewrite elem_of_app, list_elem_of_singleton. intros [?|?]; [done|].
        by apply Hne.
    + intros (tr1 & tr2 & Heq & Hno).
      destruct tr2 as [|e2 tr2 _] using rev_ind.
      * apply (app_inj_tail tr tr1 e (KeyDown k l)) in Heq as [-> ->].
        cbn [press]. apply elem_of_union. left. by apply elem_of_singleton.
      * rewrite app_comm_cons, app_assoc in Heq.
        apply app_inj_tail in Heq as [-> ->].
        assert ((k, l) ∈ foldl press ∅ (tr1 ++ KeyDown k l :: tr2)%list) as Hh.
        { apply IH. exists tr1, tr2. split; [done|].
          intros H. apply Hno. apply elem_of_app. by left. }
        assert (e2 <> KeyUp k l) as Hne.
        { intros ->. apply Hno. apply elem_of_app. right.
          by apply list_elem_of_singleton. }
        destruct e2 as [key location|key location|]; cbn [press].
        -- apply elem_of_union. by right.
        -- apply elem_of_difference. split; [done|].
           intros [= -> ->]%elem_of_singleton. done.
        -- done.
Qed.

End Replay.

(** C2, as the handlers run it: for every finite sequence of key-down and
    key-up events whose keys are none of the empty string, ["Dead"] and
    ["__proto__"], whose locations are among 0..31, in which no event of a named key arrives while an
    unnamed key is held, and in which each key-up is matched to a prior
    key-down at the same key and location, replaying the sequence in a new
    watcher gives an object whose keys are exactly the keys with at least one
    location pressed and not yet released. *)
Theorem replay_keys_are_held_keys (tr : list KeyEvent) :
  forallb plain tr = true ->
  undisturbed tr = true ->
  matched tr = true ->
  dom (activeKeys (replay tr newKeyWatcher)) = heldKeys tr.
Proof.
  intros Hp Hu _. apply tracks_dom.
  apply (tracks_replay tr newKeyWatcher ∅); [apply tracks_empty | done | done].
Qed.

Lemma replay_keys_are_held_keys_witness :
  let tr := [KeyDown "Shift" 1; KeyDown "Shift" 2; KeyUp "Shift" 1;
             KeyUp "Shift" 2; KeyDown "a" 0; KeyDown "b" 3; KeyUp "a" 0] in
  dom (activeKeys (replay tr newKeyWatcher)) = heldKeys tr.
Proof.
  intros tr.
  apply (replay_keys_are_held_keys tr); vm_compute; reflexivity.
Defined.

(** C2 as it is stated does not hold: after key-down of [a] and key-down of
    Shift, with no key-up at all, [a] is pressed and not released, and it is
    not a key of the object. *)
Lemma replay_named_key_drops_held_key :
  let tr := [KeyDown "a" 0; KeyDown "Shift" 1] in
  matched tr = true /\
  "a" ∈ heldKeys tr /\
  activeKeys (replay tr newKeyWatcher) = {[ "Shift" := 2 ]} /\
  dom (activeKeys (replay tr newKeyWatcher)) <> heldKeys tr.
Proof.
  intros tr.
  assert ("a" ∈ heldKeys tr) as Ha.
  { unfold heldKeys. apply elem_of_map. exists ("a", 0).
    split; [reflexivity|].
    apply held_spec. exists [], [KeyDown "Shift" 1]. split; [reflexivity|].
    rewrite list_elem_of_In. simpl. intros [?|[]]. discriminate. }
  assert (activeKeys (replay tr newKeyWatcher) = {[ "Shift" := 2 ]}) as E.
  { vm_compute. reflexivity. }
  split; [vm_compute; reflexivity|]. split; [exact Ha|]. split; [exact E|].
  intros Heq.
  assert ("a" ∈ dom (activeKeys (replay tr newKeyWatcher))) as Hd.
  { rewrite Heq. exact Ha. }
  rewrite E in Hd. apply elem_of_dom in Hd as [v Hv].
  rewrite lookup_singleton_ne in Hv; discriminate.
Qed.

(** * Further properties of the class *)

(** ** The two loops *)

(** [_removeUnnamedKeys] keeps exactly the entries of the named keys, with
    their values; it returns [true] exactly when the object had a key that is
    not named; it dispatches nothing; and calling it a second time returns
    [false] and changes nothing. *)
Theorem removeUnnamedKeys_correct (w : KeyWatcher) :
  let removed := (_removeUnnamedKeys w).1 in
  let w' := (_removeUnnamedKeys w).2 in
  (forall k, activeKeys w' !! k
             = if _isNamedKey k then activeKeys w !! k else None) /\
  (removed = true <->
   exists k, is_Some (activeKeys w !! k) /\ _isNamedKey k = false) /\
  dispatched w' = dispatched w /\
  warnings w' = warnings w /\
  _removeUnnamedKeys w' = (false, w').
Proof.
  rewrite removeUnnamedKeys_spec. cbn [fst snd].
  split; [intros k; apply namedOnly_lookup|].
  split; [apply hasUnnamed_true|].
  split; [done|]. split; [done|].
  rewrite removeUnnamedKeys_spec. cbn [activeKeys setActiveKeys].
  rewrite hasUnnamed_namedOnly.
  rewrite (namedOnly_id (namedOnly (activeKeys w)))
    by apply hasUnnamed_namedOnly.
  reflexivity.
Qed.

(** Whatever the watcher holds, a blur event returns normally with the empty
    object, one more [change] event dispatched, and nothing written with
    [console.warn]. *)
Theorem blur_resets (w : KeyWatcher) :
  handleEvent (toEvent Blur) w
  = Normal {| activeKeys := ∅;
              dispatched := S (dispatched w);
              warnings := warnings w |}.
Proof.
  rewrite handleEvent_toEvent. f_equal. cbn [handle]. unfold _handleBlur.
  pose proof (removeAll_activeKeys w) as Ha.
  pose proof (removeAll_dispatched w) as Hd.
  pose proof (removeAll_warnings w) as Hw.
  destruct (_removeAll w). cbn in *. by subst.
Qed.

(** ** What a key event does to the entries *)

(** A key event on [key] leaves the entry of every other key as it was,
    except that the event of a named key removes the entries of the keys that
    are not named. *)
Theorem key_event_other_entries (key : string) (location : Z) (w : KeyWatcher)
    (k : string) :
  k <> key ->
  activeKeys (handle (KeyDown key location) w) !! k
  = (if _isNamedKey key && negb (_isNamedKey k) then None
     else activeKeys w !! k) /\
  activeKeys (handle (KeyUp key location) w) !! k
  = (if _isNamedKey key && negb (_isNamedKey k) then None
     else activeKeys w !! k).
Proof.
  intros Hne. split.
  - rewrite keydown_lookup_other by (by right). apply afterModifiers_lookup.
  - rewrite keyup_lookup_other by (by right). apply afterModifiers_lookup.
Qed.

Lemma key_event_other_entries_witness :
  let w := setActiveKeys {[ "a" := 1; "Alt" := 2 ]} newKeyWatcher in
  activeKeys (handle (KeyDown "b" 0) w) !! "a" = Some 1 /\
  activeKeys (handle (KeyUp "b" 0) w) !! "a" = Some 1.
Proof.
  intros w.
  apply (key_event_other_entries "b" 0 w "a"). discriminate.
Defined.

(** After the key-up of a named key no key that is not named has an entry,
    whatever the object held: key-up clears them as key-down does. *)
Theorem named_keyup_clears_unnamed (key : string) (location : Z)
    (w : KeyWatcher) (k : string) :
  _isNamedKey key = true -> _isNamedKey k = false ->
  activeKeys (handle (KeyUp key location) w) !! k = None.
Proof.
  intros Hn Hk.
  assert (k <> key) as Hne by (intros ->; congruence).
  rewrite keyup_lookup_other by (by right).
  rewrite afterModifiers_lookup, Hn, Hk. reflexivity.
Qed.

Lemma named_keyup_clears_unnamed_witness :
  activeKeys (handle (KeyUp "Meta" 1)
                (setActiveKeys {[ "a" := 1; "Alt" := 2 ]} newKeyWatcher))
    !! "a" = None.
Proof.
  apply (named_keyup_clears_unnamed "Meta" 1
           (setActiveKeys {[ "a" := 1; "Alt" := 2 ]} newKeyWatcher) "a");
    reflexivity.
Defined.

Lemma keydown_bit_set (key : string) (location : Z) (w : KeyWatcher) :
  tracked key = true -> String.eqb key "__proto__" = false ->
  Z.testbit (bitmask (activeKeys (handle (KeyDown key location) w)) key)
            (location mod 32) = true.
Proof.
  intros Ht Hp.
  pose proof (Z.mod_pos_bound location 32 ltac:(lia)) as Hi.
  unfold bitmask. rewrite keydown_lookup_key by done.
  cbv zeta. cbn [default from_option id].
  set (v := orZero _).
  destruct (Z.eqb_spec (Int32.band v (Int32.shl 1 location)) 0) as [Hz|Hz].
  - rewrite Int32Facts.bor_testbit, Int32Facts.shl_1_testbit, Z.eqb_refl
      by done.
    apply orb_true_r.
  - destruct (Z.testbit v (location mod 32)) eqn:Eb; [done|].
    exfalso. apply Hz.
    apply Int32Facts.int32_zero_bits; [apply Int32Facts.band_int32|].
    intros j Hj.
    rewrite Int32Facts.band_testbit, Int32Facts.shl_1_testbit by done.
    destruct (Z.eqb_spec (location mod 32) j) as [<-|_];
      [by rewrite Eb | apply andb_false_r].
Qed.

Lemma keydown_active (key : string) (location : Z) (w : KeyWatcher) :
  tracked key = true -> String.eqb key "__proto__" = false ->
  truthy (activeKeys (handle (KeyDown key location) w) !! key) = true.
Proof.
  intros Ht Hp. pose proof (keydown_bit_set key location w Ht Hp) as Hbit.
  unfold bitmask in Hbit.
  destruct (activeKeys (handle (KeyDown key location) w) !! key) as [x|];
    cbn in *.
  - destruct (Z.eqb_spec x 0) as [E|E]; [|done].
    rewrite E in Hbit. by rewrite Z.bits_0 in Hbit.
  - by rewrite Z.bits_0 in Hbit.
Qed.

(** After the key-down of a key that is none of the empty string, ["Dead"]
    and ["__proto__"], the key is active and the bit of the location is set
    in its value; after its key-up, that bit is clear.  This holds in every
    state and at every location. *)
Theorem keydown_sets_keyup_clears (key : string) (location : Z)
    (w : KeyWatcher) :
  tracked key = true -> key <> "__proto__" ->
  truthy (activeKeys (handle (KeyDown key location) w) !! key) = true /\
  Z.testbit (bitmask (activeKeys (handle (KeyDown key location) w)) key)
            (location mod 32) = true /\
  Z.testbit (bitmask (activeKeys (handle (KeyUp key location) w)) key)
            (location mod 32) = false.
Proof.
  intros Ht Hp%String.eqb_neq.
  pose proof (Z.mod_pos_bound location 32 ltac:(lia)) as Hi.
  split; [by apply keydown_active|]. split; [by apply keydown_bit_set|].
  unfold bitmask at 1. rewrite keyup_lookup_key by done. cbv zeta.
  set (m := afterModifiers key (activeKeys w)).
  destruct (truthy (m !! key)) eqn:Etr.
  - destruct (Z.eqb_spec (Int32.band (bitmask m key)
                            (Int32.bnot (Int32.shl 1 location))) 0)
      as [Hz|Hz]; cbn [default from_option id].
    + apply Z.bits_0.
    + rewrite Int32Facts.band_testbit, Int32Facts.bnot_testbit,
        Int32Facts.shl_1_testbit, Z.eqb_refl by done.
      apply andb_false_r.
  - destruct (m !! key) as [x|]; cbn in *.
    + destruct (Z.eqb_spec x 0) as [E|E]; [rewrite E; apply Z.bits_0 | done].
    + apply Z.bits_0.
Qed.

Lemma keydown_sets_keyup_clears_witness :
  truthy (activeKeys (handle (KeyDown "Enter" 3) newKeyWatcher) !! "Enter")
  = true.
Proof.
  apply (keydown_sets_keyup_clears "Enter" 3 newKeyWatcher);
    [reflexivity | discriminate].
Defined.

(** A key-up or a blur never gives a key an entry; a key-down gives an entry
    to no key but its own. *)
Theorem handlers_add_own_key_only (e : KeyEvent) (w : KeyWatcher) :
  dom (activeKeys (handle e w))
  ⊆ match e with
    | KeyDown key _ => {[ key ]} ∪ dom (activeKeys w)
    | _ => dom (activeKeys w)
    end.
Proof.
  assert (forall key (m : gmap string Z) k,
            is_Some (afterModifiers key m !! k) -> is_Some (m !! k)) as Hsub.
  { intros key m k. rewrite afterModifiers_lookup.
    destruct (_ && _); [by intros [? ?] | done]. }
  destruct e as [key location|key location|]; intros k; rewrite !elem_of_dom.
  - rewrite elem_of_union, elem_of_singleton, elem_of_dom.
    destruct (decide (k = key)) as [->|Hne]; [by left|].
    rewrite keydown_lookup_other by (by right). right. by eapply Hsub.
  - destruct (decide (tracked key = false \/ k <> key)) as [H|H].
    { rewrite keyup_lookup_other by done. apply Hsub. }
    assert (tracked key = true /\ k = key) as [Ht ->].
    { destruct (tracked key); destruct (decide (k = key)); tauto. }
    rewrite keyup_lookup_key by done. cbv zeta.
    destruct (truthy (afterModifiers key (activeKeys w) !! key)) eqn:Etr;
      [|apply Hsub].
    intros _. apply (Hsub key).
    destruct (afterModifiers key (activeKeys w) !! key); [eauto | done].
  - cbn [handle]. unfold _handleBlur. rewrite removeAll_activeKeys.
    rewrite lookup_empty. by intros [? ?].
Qed.

(** Handling an event dispatches at most one [change] event, never takes one
    back, and writes nothing with [console.warn]. *)
Theorem handle_dispatches_at_most_once (e : KeyEvent) (w : KeyWatcher) :
  (dispatched w <= dispatched (handle e w) <= S (dispatched w))%nat /\
  warnings (handle e w) = warnings w.
Proof.
  assert (forall c m,
            (dispatched w <= dispatched (notify c (setActiveKeys m w))
             <= S (dispatched w))%nat
            /\ warnings (notify c (setActiveKeys m w)) = warnings w) as Hn.
  { intros [] m; cbn; split; (lia || done). }
  destruct e as [key location|key location|]; cbn [handle].
  - rewrite handleKeydown_eq. cbv zeta.
    repeat match goal with
           | |- context [if ?b then _ else _] => destruct b
           end; apply Hn.
  - rewrite handleKeyup_eq. cbv zeta.
    repeat match goal with
           | |- context [if ?b then _ else _] => destruct b
           end; apply Hn.
  - unfold _handleBlur. rewrite removeAll_dispatched, removeAll_warnings.
    split; [lia | done].
Qed.

(** ** When a [change] event is dispatched *)

Section Changes.

Implicit Types (m : gmap string Z) (w : KeyWatcher) (k key : string).

Lemma afterModifiers_dom key m :
  _isNamedKey key && hasUnnamed m = false <->
  dom (afterModifiers key m) = dom m.
Proof.
  split; [by intros ->%afterModifiers_id|].
  intros Hd. destruct (_isNamedKey key && hasUnnamed m) eqn:Ec; [|done].
  apply andb_true_iff in Ec as [Hn (k & Hk & Hu)%hasUnnamed_true].
  apply elem_of_dom in Hk. rewrite <- Hd in Hk.
  apply elem_of_dom in Hk as [v Hv].
  rewrite afterModifiers_lookup, Hn, Hu in Hv. done.
Qed.

Lemma insert_afterModifiers_dom key m (x : Z) :
  well_formed m ->
  (orZero (afterModifiers key m !! key) =? 0)
  || (_isNamedKey key && hasUnnamed m) = false <->
  dom (<[key := x]> (afterModifiers key m)) = dom m.
Proof.
  intros Hm. rewrite dom_insert_L. split.
  - intros [Hv Hc]%orb_false_iff. rewrite afterModifiers_id in * by done.
    rewrite well_formed_orZero in Hv by done. apply Z.eqb_neq in Hv.
    assert (key ∈ dom m) as Hin.
    { apply elem_of_dom. unfold bitmask in Hv.
      destruct (m !! key); [eauto | done]. }
    apply set_eq. intros k. rewrite elem_of_union, elem_of_singleton.
    split; [intros [->|?]; done | by right].
  - intros Hd.
    assert (_isNamedKey key && hasUnnamed m = false) as Hc.
    { destruct (_isNamedKey key && hasUnnamed m) eqn:Ec; [|done].
      apply andb_true_iff in Ec as [Hn (k & Hk & Hu)%hasUnnamed_true].
      apply elem_of_dom in Hk. rewrite <- Hd in Hk.
      apply elem_of_union in Hk as [->%elem_of_singleton|Hk]; [congruence|].
      apply elem_of_dom in Hk as [v Hv].
      rewrite afterModifiers_lookup, Hn, Hu in Hv. done. }
    rewrite Hc, orb_false_r. rewrite afterModifiers_id in * by done.
    assert (key ∈ dom m) as [v Hv]%elem_of_dom.
    { rewrite <- Hd. apply elem_of_union. left. by apply elem_of_singleton. }
    rewrite Hv, orZero_Some. apply Z.eqb_neq. apply (Hm key v Hv).
Qed.

Lemma notify_notifications (e : KeyEvent) w (c : bool) m :
  handle e w = notify c (setActiveKeys m w) ->
  notifications e w = (if c then 1 else 0)%nat /\ activeKeys (handle e w) = m.
Proof.
  intros H. unfold notifications. rewrite H. destruct c; cbn; split; (lia || done).
Qed.

Lemma inheritsOnly_proto key m :
  inheritedFunction key = false -> inheritsOnly m key = true ->
  String.eqb key "__proto__" = true.
Proof.
  unfold inheritedFunction, inheritsOnly.
  intros H [_ Hi]%andb_true_iff. rewrite Hi in H.
  by destruct (String.eqb key "__proto__").
Qed.

Lemma keydown_change key location w :
  inheritedFunction key = false ->
  well_formed (activeKeys w) ->
  exists (c : bool) m,
    handle (KeyDown key location) w = notify c (setActiveKeys m w)
    /\ (c = false <-> dom m = dom (activeKeys w)).
Proof.
  intros Hf Hm. cbn [handle]. rewrite handleKeydown_eq. cbv zeta.
  destruct (tracked key).
  - destruct (inheritsOnly (afterModifiers key (activeKeys w)) key) eqn:Ei.
    { rewrite (inheritsOnly_proto key _ Hf Ei).
      eexists _, _. split; [reflexivity|]. apply afterModifiers_dom. }
    destruct (Z.eqb_spec
                (Int32.band (orZero (afterModifiers key (activeKeys w) !! key))
                            (Int32.shl 1 location)) 0) as [Hz|Hz].
    + eexists _, _. split; [reflexivity|]. by apply insert_afterModifiers_dom.
    + eexists _, _. split; [reflexivity|].
      rewrite <- insert_afterModifiers_dom by done.
      destruct (Z.eqb_spec (orZero (afterModifiers key (activeKeys w) !! key)) 0)
        as [E|E]; [|done].
      rewrite E in Hz. by rewrite band_zero_l in Hz.
  - eexists _, _. split; [reflexivity|]. apply afterModifiers_dom.
Qed.

Lemma keyup_change key location w :
  inheritedFunction key = false ->
  exists (c : bool) m,
    handle (KeyUp key location) w = notify c (setActiveKeys m w)
    /\ (c = false <-> dom m = dom (activeKeys w)).
Proof.
  intros Hf. cbn [handle]. rewrite handleKeyup_eq. cbv zeta.
  rewrite keyup_guard_false by done.
  set (m' := afterModifiers key (activeKeys w)).
  destruct (tracked key && truthy (m' !! key)) eqn:Eb.
  - apply andb_true_iff in Eb as [_ Etr].
    assert (is_Some (m' !! key)) as [v Hv].
    { destruct (m' !! key); [eauto | done]. }
    destruct (_ =? 0).
    + eexists _, _. split; [reflexivity|]. split; [done|].
      intros Hd. exfalso.
      assert (key ∈ dom (activeKeys w)) as Hin.
      { apply elem_of_dom. subst m'. rewrite afterModifiers_lookup in Hv.
        destruct (_ && _); [done | eauto]. }
      rewrite <- Hd in Hin. apply elem_of_dom in Hin as [? Hx].
      by rewrite lookup_delete_eq in Hx.
    + eexists _, _. split; [reflexivity|].
      rewrite dom_insert_L.
      assert ({[key]} ∪ dom m' = dom m') as ->.
      { apply set_eq. intros k. rewrite elem_of_union, elem_of_singleton.
        split; [|by right]. intros [->|?]; [|done].
        apply elem_of_dom. eauto. }
      apply afterModifiers_dom.
  - eexists _, _. split; [reflexivity|]. apply afterModifiers_dom.
Qed.

End Changes.

(** In every state that a new watcher reaches, the key-down or the key-up of
    a key that is not the name of a function that the object inherits from
    [Object.prototype] dispatches a [change] event exactly when it changes
    the set of the keys of the object, and then it dispatches one. *)
Theorem change_event_iff_key_set_changes (tr : list KeyEvent) (key : string)
    (location : Z) :
  inheritedFunction key = false ->
  let w := replay tr newKeyWatcher in
  notifications (KeyDown key location) w
  = (if bool_decide (dom (activeKeys (handle (KeyDown key location) w))
                     = dom (activeKeys w)) then 0 else 1)%nat /\
  notifications (KeyUp key location) w
  = (if bool_decide (dom (activeKeys (handle (KeyUp key location) w))
                     = dom (activeKeys w)) then 0 else 1)%nat.
Proof.
  intros Hf w.
  assert (well_formed (activeKeys w)) as Hm.
  { apply (replay_invariant (fun w => well_formed (activeKeys w)));
      [apply handle_well_formed|].
    intros k' v. cbn. by rewrite lookup_empty. }
  split.
  - destruct (keydown_change key location w Hf Hm) as (c & m & H & Hc).
    destruct (notify_notifications _ _ _ _ H) as [-> ->].
    destruct c.
    + rewrite bool_decide_eq_false_2; [done|]. intros E. by apply Hc in E.
    + rewrite bool_decide_eq_true_2; [done|]. by apply Hc.
  - destruct (keyup_change key location w Hf) as (c & m & H & Hc).
    destruct (notify_notifications _ _ _ _ H) as [-> ->].
    destruct c.
    + rewrite bool_decide_eq_false_2; [done|]. intros E. by apply Hc in E.
    + rewrite bool_decide_eq_true_2; [done|]. by apply Hc.
Qed.

Lemma change_event_iff_key_set_changes_witness :
  let w := replay [KeyDown "toString" 0; KeyDown "a" 1] newKeyWatcher in
  notifications (KeyDown "Shift" 1) w
  = (if bool_decide (dom (activeKeys (handle (KeyDown "Shift" 1) w))
                     = dom (activeKeys w)) then 0 else 1)%nat.
Proof.
  intros w.
  apply (change_event_iff_key_set_changes
           [KeyDown "toString" 0; KeyDown "a" 1] "Shift" 1).
  reflexivity.
Defined.

(** ** More invariants and compositions *)

Lemma handle_no_empty_key (e : KeyEvent) (w : KeyWatcher) :
  activeKeys w !! EmptyString = None ->
  activeKeys (handle e w) !! EmptyString = None.
Proof.
  intros H. destruct e as [key location|key location|].
  - rewrite keydown_lookup_other; [by apply afterModifiers_None|].
    destruct (tracked key) eqn:Et; [right | by left]. by intros <-.
  - rewrite keyup_lookup_other; [by apply afterModifiers_None|].
    destruct (tracked key) eqn:Et; [right | by left]. by intros <-.
  - cbn [handle]. unfold _handleBlur. by rewrite removeAll_activeKeys.
Qed.

(** Whatever sequence of events a new watcher has handled, the empty string
    is not a key of its object: an event with an empty key is not tracked. *)
Theorem empty_key_never_active (tr : list KeyEvent) :
  activeKeys (replay tr newKeyWatcher) !! EmptyString = None.
Proof.
  apply (replay_invariant (fun w => activeKeys w !! EmptyString = None));
    [apply handle_no_empty_key | done].
Qed.

Lemma handle_activeKeys_ext (e : KeyEvent) (w1 w2 : KeyWatcher) :
  activeKeys w1 = activeKeys w2 ->
  activeKeys (handle e w1) = activeKeys (handle e w2).
Proof.
  intros H. destruct e as [key location|key location|]; cbn [handle].
  - rewrite !handleKeydown_eq. cbv zeta. rewrite H.
    repeat match goal with
           | |- context [if ?b then _ else _] => destruct b
           end; by rewrite !activeKeys_notify.
  - rewrite !handleKeyup_eq. cbv zeta. rewrite H.
    repeat match goal with
           | |- context [if ?b then _ else _] => destruct b
           end; by rewrite !activeKeys_notify.
  - unfold _handleBlur. by rewrite !removeAll_activeKeys.
Qed.

Lemma replay_activeKeys_ext (tr : list KeyEvent) (w1 w2 : KeyWatcher) :
  activeKeys w1 = activeKeys w2 ->
  activeKeys (replay tr w1) = activeKeys (replay tr w2).
Proof.
  revert w1 w2. induction tr as [|e tr IH]; intros w1 w2 H; [done|].
  cbn. apply IH. by apply handle_activeKeys_ext.
Qed.

(** A blur forgets what came before it: the object after any events, a blur
    and the events [tr2] is the object that a new watcher has after [tr2]. *)
Theorem blur_forgets_history (tr1 tr2 : list KeyEvent) (w : KeyWatcher) :
  activeKeys (replay (tr1 ++ Blur :: tr2) w)
  = activeKeys (replay tr2 newKeyWatcher).
Proof.
  unfold replay. rewrite foldl_app. cbn [foldl].
  apply replay_activeKeys_ext. cbn [handle]. unfold _handleBlur.
  by rewrite removeAll_activeKeys.
Qed.

Lemma replay_well_formed (tr : list KeyEvent) :
  well_formed (activeKeys (replay tr newKeyWatcher)).
Proof.
  apply (replay_invariant (fun w => well_formed (activeKeys w)));
    [apply handle_well_formed|].
  intros k v. cbn. by rewrite lookup_empty.
Qed.

Lemma band_shl_zero (v location : Z) :
  Z.testbit v (location mod 32) = false ->
  Int32.band v (Int32.shl 1 location) = 0.
Proof.
  intros Hb. apply Int32Facts.int32_zero_bits; [apply Int32Facts.band_int32|].
  intros j Hj.
  rewrite Int32Facts.band_testbit, Int32Facts.shl_1_testbit by done.
  destruct (Z.eqb_spec (location mod 32) j) as [<-|_];
    [by rewrite Hb | apply andb_false_r].
Qed.

Lemma band_bor_bnot_shl (v location : Z) :
  Int32.is_int32 v -> Z.testbit v (location mod 32) = false ->
  Int32.band (Int32.bor v (Int32.shl 1 location))
             (Int32.bnot (Int32.shl 1 location)) = v.
Proof.
  intros Hv Hb. apply Int32Facts.int32_ext; [apply Int32Facts.band_int32|done|].
  intros j Hj.
  rewrite Int32Facts.band_testbit, Int32Facts.bor_testbit,
    Int32Facts.bnot_testbit, Int32Facts.shl_1_testbit by done.
  destruct (Z.eqb_spec (location mod 32) j) as [<-|_]; cbn.
  - by rewrite Hb.
  - by rewrite orb_false_r, andb_true_r.
Qed.

Lemma bor_shl_nonzero (v location : Z) :
  Int32.bor v (Int32.shl 1 location) <> 0.
Proof.
  intros E.
  pose proof (Z.mod_pos_bound location 32 ltac:(lia)) as Hi.
  pose proof (Int32Facts.bor_testbit v (Int32.shl 1 location)
                (location mod 32) Hi) as Hb.
  rewrite E, Z.bits_0, Int32Facts.shl_1_testbit, Z.eqb_refl, orb_true_r
    in Hb by done.
  discriminate.
Qed.

(** Key-down then key-up at a location that was not pressed gives back the
    object as it was, provided the stored values are non-zero 32-bit integers
    (as in every state a new watcher reaches), the key is neither empty nor
    ["Dead"], and the key is not a named key arriving while a key that is not
    named is active. *)
Theorem keydown_keyup_round_trip (key : string) (location : Z)
    (w : KeyWatcher) :
  well_formed (activeKeys w) ->
  tracked key = true ->
  _isNamedKey key && hasUnnamed (activeKeys w) = false ->
  Z.testbit (bitmask (activeKeys w) key) (location mod 32) = false ->
  activeKeys (handle (KeyUp key location) (handle (KeyDown key location) w))
  = activeKeys w.
Proof.
  intros Hm Ht Hc Hb.
  set (m := activeKeys w) in *. set (v := bitmask m key) in *.
  set (b := Int32.shl 1 location).
  destruct (inheritsOnly m key && String.eqb key "__proto__") eqn:Ep.
  { assert (m !! key = None) as Hk.
    { apply andb_true_iff in Ep as [[Ei _]%andb_true_iff _].
      by apply bool_decide_eq_true in Ei. }
    assert (activeKeys (handle (KeyDown key location) w) = m) as Hdown.
    { rewrite keydown_activeKeys. cbv zeta. fold m.
      by rewrite Ht, afterModifiers_id, Ep by done. }
    rewrite keyup_activeKeys. cbv zeta. rewrite Hdown.
    rewrite afterModifiers_id by done. rewrite Hk. cbn [truthy].
    by rewrite andb_false_r. }
  assert (activeKeys (handle (KeyDown key location) w) = <[key := Int32.bor v b]> m)
    as Hdown.
  { rewrite keydown_activeKeys. cbv zeta. fold m.
    rewrite Ht, afterModifiers_id, Ep, well_formed_orZero by done. fold v b.
    subst b. by rewrite band_shl_zero by done. }
  rewrite keyup_activeKeys. cbv zeta. rewrite Hdown.
  assert (_isNamedKey key && hasUnnamed (<[key := Int32.bor v b]> m) = false)
    as Hc'.
  { destruct (_isNamedKey key) eqn:En; [|done]. cbn in *.
    by apply hasUnnamed_insert_named. }
  assert (bitmask (<[key := Int32.bor v b]> m) key = Int32.bor v b) as Hbm.
  { unfold bitmask. by rewrite lookup_insert_eq. }
  rewrite afterModifiers_id by done.
  rewrite Hbm, lookup_insert_eq, Ht. cbn [andb truthy].
  destruct (Z.eqb_spec (Int32.bor v b) 0) as [E|_];
    [by apply bor_shl_nonzero in E|].
  cbn [negb]. subst b.
  rewrite band_bor_bnot_shl; [|by apply well_formed_bitmask|done].
  destruct (Z.eqb_spec v 0) as [Ev|Ev].
  - rewrite delete_insert_eq. apply delete_id.
    subst v. unfold bitmask in Ev. destruct (m !! key) as [x|] eqn:Ex; [|done].
    cbn in Ev. subst x. by destruct (Hm key 0 Ex).
  - rewrite insert_insert_eq. apply insert_id.
    subst v. unfold bitmask in *.
    destruct (m !! key) as [x|]; cbn in *; [reflexivity | congruence].
Qed.

Lemma keydown_keyup_round_trip_witness :
  let w := replay [KeyDown "Shift" 1; KeyDown "Alt" 1] newKeyWatcher in
  activeKeys (handle (KeyUp "Shift" 2) (handle (KeyDown "Shift" 2) w))
  = activeKeys w.
Proof.
  intros w.
  apply (keydown_keyup_round_trip "Shift" 2 w).
  - apply replay_well_formed.
  - reflexivity.
  - vm_compute. reflexivity.
  - vm_compute. reflexivity.
Defined.

(** For a sequence of key-downs and key-ups with keys that are none of the
    empty string, ["Dead"] and ["__proto__"], locations among 0..31, and no event of a named key while a
    key that is not named is held: bit [i] of the value of a key is set
    exactly when the sequence has a key-down of the key at location [i] with
    no key-up of the key at that location after it. *)
Theorem bitmask_records_held (tr : list KeyEvent) (k : string) (i : Z) :
  forallb plain tr = true ->
  undisturbed tr = true ->
  0 <= i < 32 ->
  Z.testbit (bitmask (activeKeys (replay tr newKeyWatcher)) k) i = true <->
  exists tr1 tr2, tr = (tr1 ++ KeyDown k i :: tr2)%list /\ (KeyUp k i ∉ tr2).
Proof.
  intros Hp Hu Hi. rewrite <- held_spec.
  destruct (tracks_replay tr newKeyWatcher ∅ tracks_empty Hp Hu)
    as (_ & _ & Hbits).
  by apply Hbits.
Qed.

Lemma bitmask_records_held_witness :
  Z.testbit
    (bitmask (activeKeys (replay [KeyDown "a" 0; KeyDown "a" 3; KeyUp "a" 0]
                            newKeyWatcher)) "a") 3 = true.
Proof.
  apply (bitmask_records_held [KeyDown "a" 0; KeyDown "a" 3; KeyUp "a" 0]
           "a" 3); [reflexivity | reflexivity | lia |].
  exists [KeyDown "a" 0], [KeyUp "a" 0]. split; [reflexivity|].
  rewrite list_elem_of_In. simpl. intros [?|[]]. discriminate.
Defined.

(** ** The entry point, type by type *)

Section EntryPoint.

Local Open Scope char_scope.

Ltac upper_cases :=
  let c := fresh "c" in
  intros c; destruct c as [[] [] [] [] [] [] [] []]; vm_compute;
  (split;
   [ intros E; first [discriminate E | left; reflexivity | right; reflexivity]
   | intros [E|E]; first [discriminate E | reflexivity] ]).

Lemma toUpperCase_K : forall c, toUpperCase c = "K" <-> c = "k" \/ c = "K".
Proof. upper_cases. Qed.

Lemma toUpperCase_B : forall c, toUpperCase c = "B" <-> c = "b" \/ c = "B".
Proof. upper_cases. Qed.

Lemma toUpperCase_M : forall c, toUpperCase c = "M" <-> c = "m" \/ c = "M".
Proof. upper_cases. Qed.

Lemma typeHandler_eqb (c u l : ascii) (rest tail : string) :
  (forall c, toUpperCase c = u <-> c = l \/ c = u) ->
  String.eqb ("_handle" ++ String (toUpperCase c) rest)
             ("_handle" ++ String u tail)
  = bool_decide (String c rest = String l tail \/ String c rest = String u tail).
Proof.
  intros Hu. destruct (String.eqb_spec
                         ("_handle" ++ String (toUpperCase c) rest)
                         ("_handle" ++ String u tail)) as [E|E].
  - symmetry. apply bool_decide_eq_true_2.
    cbn in E. injection E as Hc ->. apply Hu in Hc as [->| ->]; auto.
  - symmetry. apply bool_decide_eq_false_2. intros H. apply E.
    assert (toUpperCase c = u /\ rest = tail) as [-> ->]; [|done].
    rewrite Hu. destruct H as [[= -> ->]|[= -> ->]]; auto.
Qed.

Lemma member_typeHandler (c : ascii) (rest : string) :
  member ("_handle" ++ String (toUpperCase c) rest)
  = let t := String c rest in
    if bool_decide (t = "keydown" \/ t = "Keydown")%string
    then Some M_handleKeydown
    else if bool_decide (t = "keyup" \/ t = "Keyup")%string
    then Some M_handleKeyup
    else if bool_decide (t = "blur" \/ t = "Blur")%string
    then Some M_handleBlur
    else if bool_decide (t = "modifiers" \/ t = "Modifiers")%string
    then Some M_handleModifiers
    else None.
Proof.
  unfold member. cbv zeta.
  rewrite <- (typeHandler_eqb c "K" "k" rest "eydown" toUpperCase_K).
  rewrite <- (typeHandler_eqb c "K" "k" rest "eyup" toUpperCase_K).
  rewrite <- (typeHandler_eqb c "B" "b" rest "lur" toUpperCase_B).
  rewrite <- (typeHandler_eqb c "M" "m" rest "odifiers" toUpperCase_M).
  reflexivity.
Qed.

End EntryPoint.

(** What [handleEvent] does is decided by the type of the event, up to the
    case of its first letter: the three handlers run for keydown, keyup and
    blur, the keyboard handlers throwing a [TypeError] when the event has no
    key; the call throws a [TypeError] for the empty type and for modifiers;
    for every other type one line is written with [console.warn] and the
    watcher is otherwise left as it was. *)
Theorem handleEvent_by_type (evt : Event) (w : KeyWatcher) :
  handleEvent evt w
  = let t := evt_type evt in
    if bool_decide (t = "keydown" \/ t = "Keydown")
    then match evt_key evt with
         | Some key => Normal (_handleKeydown key (evt_location evt) w)
         | None => ThrowTypeError
         end
    else if bool_decide (t = "keyup" \/ t = "Keyup")
    then match evt_key evt with
         | Some key => Normal (_handleKeyup key (evt_location evt) w)
         | None => ThrowTypeError
         end
    else if bool_decide (t = "blur" \/ t = "Blur")
    then Normal (_handleBlur w)
    else if bool_decide (t = EmptyString \/ t = "modifiers" \/ t = "Modifiers")
    then ThrowTypeError
    else Normal {| activeKeys := activeKeys w;
                   dispatched := dispatched w;
                   warnings := ("No handler for " ++ t ++ " on KeyWatcher.")%string
                               :: warnings w |}.
Proof.
  unfold handleEvent, callKeyHandler. cbv zeta.
  destruct (evt_type evt) as [|c rest] eqn:Et.
  - rewrite !bool_decide_eq_false_2 by (by intros [?|?]).
    by rewrite bool_decide_eq_true_2 by (by left).
  - rewrite member_typeHandler. cbv zeta.
    destruct (bool_decide (String c rest = "keydown" \/ _)); [done|].
    destruct (bool_decide (String c rest = "keyup" \/ _)); [done|].
    destruct (bool_decide (String c rest = "blur" \/ _)); [done|].
    destruct (decide (String c rest = "modifiers"
                      \/ String c rest = "Modifiers")) as [H|H].
    + rewrite !bool_decide_eq_true_2 by tauto. done.
    + rewrite !bool_decide_eq_false_2; [done | | done].
      intros [?|?]; [done | tauto].
Qed.

(** ** The getter *)

Lemma jsOr_truthy (a b : option Z) :
  truthy (jsOr a b) = truthy a || truthy b.
Proof. unfold jsOr. by destruct (truthy a) eqn:E; cbn; rewrite ?E. Qed.

(** [_eventModifierKeyIsActive] is truthy in a state that a new watcher
    reaches exactly when one of Alt, Control, Meta and Shift is a key of the
    object; it is truthy after the key-down of any of the four, in every
    state; and it is [undefined] after a blur. *)
Theorem eventModifierKeyIsActive_spec :
  (forall tr,
     let w := replay tr newKeyWatcher in
     truthy (_eventModifierKeyIsActive w) = true <->
     exists k, k ∈ ["Alt"; "Control"; "Meta"; "Shift"]
               /\ k ∈ dom (activeKeys w)) /\
  (forall key location w,
     key ∈ ["Alt"; "Control"; "Meta"; "Shift"] ->
     truthy (_eventModifierKeyIsActive (handle (KeyDown key location) w))
     = true) /\
  (forall w, _eventModifierKeyIsActive (handle Blur w) = None).
Proof.
  assert (forall w,
            truthy (_eventModifierKeyIsActive w) = true <->
            exists k, k ∈ ["Alt"; "Control"; "Meta"; "Shift"]
                      /\ truthy (activeKeys w !! k) = true) as Hg.
  { intros w. unfold _eventModifierKeyIsActive. rewrite !jsOr_truthy.
    rewrite !orb_true_iff. split.
    - intros [[[H|H]|H]|H]; eexists; (split; [|exact H]); repeat constructor.
    - intros (k & Hk & Ht).
      repeat (apply elem_of_cons in Hk as [->|Hk]);
        [tauto | tauto | tauto | tauto | by apply elem_of_nil in Hk]. }
  split; [|split].
  - intros tr w. rewrite Hg. split; intros (k & Hk & H); exists k;
      (split; [done|]).
    + apply elem_of_dom. destruct (activeKeys w !! k); [eauto | done].
    + apply elem_of_dom in H as [v Hv]. rewrite Hv. cbn.
      destruct (replay_well_formed tr k v Hv) as [Hne _].
      by destruct (Z.eqb_spec v 0).
  - intros key location w Hk. apply Hg. exists key. split; [done|].
    repeat (apply elem_of_cons in Hk as [->|Hk]);
      [by apply keydown_active ..| by apply elem_of_nil in Hk].
  - intros w. cbn [handle]. unfold _handleBlur, _eventModifierKeyIsActive.
    rewrite removeAll_activeKeys. reflexivity.
Qed.

Lemma eventModifierKeyIsActive_spec_witness :
  truthy (_eventModifierKeyIsActive (handle (KeyDown "Shift" 1) newKeyWatcher))
  = true.
Proof.
  apply (proj1 (proj2 eventModifierKeyIsActive_spec) "Shift" 1 newKeyWatcher).
  repeat constructor.
Defined.

(** ** Subscribing and unsubscribing *)

Lemma constructor_listeners (this : nat) (l : gset (string * nat))
    (t : string) (o : nat) :
  (t, o) ∈ (constructor this l).2 <->
  (o = this /\ (t = "keydown" \/ t = "keyup" \/ t = "blur")) \/ (t, o) ∈ l.
Proof.
  unfold constructor, addEventListener. cbn [snd].
  rewrite !elem_of_union, !elem_of_singleton. split.
  - intros [[= -> ->]|[[= -> ->]|[[= -> ->]|H]]]; tauto.
  - intros [[-> [-> | [-> | ->]]] | H]; tauto.
Qed.

Lemma destroy_listeners (this : nat) (l : gset (string * nat))
    (t : string) (o : nat) :
  (t, o) ∈ _destroy this l <->
  (t, o) ∈ l /\ ~ (o = this /\ (t = "keydown" \/ t = "keyup" \/ t = "blur")).
Proof.
  unfold _destroy, removeEventListener.
  rewrite !elem_of_difference, !elem_of_singleton. split.
  - intros [[[H H1] H2] H3]. split; [done|].
    intros [-> [-> | [-> | ->]]]; tauto.
  - intros [H Hn]. repeat split; [done | | |]; intros [= -> ->]; tauto.
Qed.

(** [_destroy] removes the three registrations that [constructor] made for
    the watcher and no other one: for a watcher that was not registered, the
    listeners of [window] after [constructor] and [_destroy] are the ones
    before, and no event that [window] dispatches reaches the watcher any
    more. *)
Theorem destroy_undoes_constructor (this : nat) (l : gset (string * nat)) :
  (forall t, (t, this) ∉ l) ->
  _destroy this (constructor this l).2 = l /\
  (forall evt w,
     window_dispatch evt this (_destroy this (constructor this l).2) w
     = Normal w).
Proof.
  intros Hfresh.
  assert (_destroy this (constructor this l).2 = l) as E.
  { apply set_eq. intros [t o].
    rewrite destroy_listeners, constructor_listeners. split.
    - intros [[H|H] Hn]; tauto.
    - intros H. split; [by right|]. intros [-> _]. by apply (Hfresh t). }
  split; [done|]. intros evt w. rewrite E. unfold window_dispatch.
  rewrite bool_decide_eq_false_2; [done | apply Hfresh].
Qed.

Lemma destroy_undoes_constructor_witness :
  _destroy 0 (constructor 0 {[ ("keydown", 1%nat) ]}).2
  = {[ ("keydown", 1%nat) ]}.
Proof.
  apply (destroy_undoes_constructor 0 {[ ("keydown", 1%nat) ]}).
  intros t H. apply elem_of_singleton in H. discriminate.
Defined.

Lemma handle_warnings (e : KeyEvent) (w : KeyWatcher) :
  warnings (handle e w) = warnings w.
Proof.
  assert (forall c m, warnings (notify c (setActiveKeys m w)) = warnings w)
    as Hn by (by intros [] m).
  destruct e as [key location|key location|]; cbn [handle].
  - rewrite handleKeydown_eq. cbv zeta.
    repeat match goal with
           | |- context [if ?b then _ else _] => destruct b
           end; apply Hn.
  - rewrite handleKeyup_eq. cbv zeta.
    repeat match goal with
           | |- context [if ?b then _ else _] => destruct b
           end; apply Hn.
  - unfold _handleBlur. apply removeAll_warnings.
Qed.

(** Through the registrations that [constructor] makes, and no other one,
    [handleEvent] is called for the events of type keydown, keyup and blur
    only, each with its own handler.  So an event that [window] dispatches to
    the watcher never writes with [console.warn], and it throws only when it
    is a keydown or a keyup that has no key. *)
Theorem subscribed_delivery (this : nat) (l : gset (string * nat))
    (evt : Event) (w : KeyWatcher) :
  (forall t, (t, this) ∉ l) ->
  let result := window_dispatch evt this (constructor this l).2 w in
  result
  = (if String.eqb (evt_type evt) "keydown"
     then match evt_key evt with
          | Some key => Normal (_handleKeydown key (evt_location evt) w)
          | None => ThrowTypeError
          end
     else if String.eqb (evt_type evt) "keyup"
     then match evt_key evt with
          | Some key => Normal (_handleKeyup key (evt_location evt) w)
          | None => ThrowTypeError
          end
     else if String.eqb (evt_type evt) "blur"
     then Normal (_handleBlur w)
     else Normal w) /\
  (is_Some (evt_key evt) -> result <> ThrowTypeError) /\
  (forall w', result = Normal w' -> warnings w' = warnings w).
Proof.
  intros Hfresh result.
  assert (result
          = (if String.eqb (evt_type evt) "keydown"
             then match evt_key evt with
                  | Some key => Normal (_handleKeydown key (evt_location evt) w)
                  | None => ThrowTypeError
                  end
             else if String.eqb (evt_type evt) "keyup"
             then match evt_key evt with
                  | Some key => Normal (_handleKeyup key (evt_location evt) w)
                  | None => ThrowTypeError
                  end
             else if String.eqb (evt_type evt) "blur"
             then Normal (_handleBlur w)
             else Normal w)) as E.
  { subst result. unfold window_dispatch.
    destruct evt as [t key location]. cbn [evt_type evt_key evt_location].
    destruct (String.eqb_spec t "keydown") as [->|H1].
    { rewrite bool_decide_eq_true_2; [done|].
      apply constructor_listeners. tauto. }
    destruct (String.eqb_spec t "keyup") as [->|H2].
    { rewrite bool_decide_eq_true_2; [done|].
      apply constructor_listeners. tauto. }
    destruct (String.eqb_spec t "blur") as [->|H3].
    { rewrite bool_decide_eq_true_2; [done|].
      apply constructor_listeners. tauto. }
    rewrite bool_decide_eq_false_2; [done|].
    rewrite constructor_listeners. intros [[_ H]|H]; [tauto|].
    by apply (Hfresh t). }
  split; [done|]. rewrite E. clear E result. split.
  - intros [key ->].
    by destruct (String.eqb (evt_type evt) "keydown"),
      (String.eqb (evt_type evt) "keyup"), (String.eqb (evt_type evt) "blur").
  - intros w'.
    destruct (String.eqb (evt_type evt) "keydown");
      [destruct (evt_key evt) as [key|]; [|done]; intros [= <-];
       apply (handle_warnings (KeyDown key (evt_location evt)))|].
    destruct (String.eqb (evt_type evt) "keyup");
      [destruct (evt_key evt) as [key|]; [|done]; intros [= <-];
       apply (handle_warnings (KeyUp key (evt_location evt)))|].
    destruct (String.eqb (evt_type evt) "blur"); intros [= <-];
      [apply (handle_warnings Blur) | done].
Qed.

Lemma subscribed_delivery_witness :
  window_dispatch (mkEvent "modifiers" (Some "x") 0) 0 (constructor 0 ∅).2
                  newKeyWatcher
  <> ThrowTypeError.
Proof.
  apply (subscribed_delivery 0 ∅ (mkEvent "modifiers" (Some "x") 0)
           newKeyWatcher).
  - intros t H. by apply not_elem_of_empty in H.
  - cbn. eauto.
Defined.

(** ** Repeated key-up, and events of different keys *)

Section Local.

Implicit Types (m : gmap string Z) (w : KeyWatcher) (k key : string).

Lemma hasUnnamed_delete key m :
  hasUnnamed m = false -> hasUnnamed (delete key m) = false.
Proof.
  rewrite !hasUnnamed_false. intros H k [v Hv].
  destruct (decide (key = k)) as [<-|Hne];
    [by rewrite lookup_delete_eq in Hv|].
  rewrite lookup_delete_ne in Hv by done. eauto.
Qed.

Lemma band_bnot_idemp (v b : Z) :
  Int32.band (Int32.band v (Int32.bnot b)) (Int32.bnot b)
  = Int32.band v (Int32.bnot b).
Proof.
  apply Int32Facts.int32_ext; [apply Int32Facts.band_int32 ..|].
  intros j Hj. rewrite !Int32Facts.band_testbit by done.
  by rewrite <- andb_assoc, andb_diag.
Qed.

(** A key-up does nothing at all when the bit of its location is clear
    already and it has no unnamed key to remove. *)
Lemma keyup_noop key location w :
  inheritedFunction key = false ->
  _isNamedKey key && hasUnnamed (activeKeys w) = false ->
  (tracked key = true -> forall v,
     activeKeys w !! key = Some v -> v <> 0 ->
     Int32.band v (Int32.bnot (Int32.shl 1 location)) = v) ->
  handle (KeyUp key location) w = w.
Proof.
  intros Hf Hc Hbit. cbn [handle]. rewrite handleKeyup_eq. cbv zeta.
  rewrite keyup_guard_false by done.
  rewrite Hc, afterModifiers_id by done.
  destruct (tracked key); cbn [andb]; [|apply setActiveKeys_id].
  destruct (activeKeys w !! key) as [v|] eqn:Ev; cbn [truthy];
    [|apply setActiveKeys_id].
  destruct (Z.eqb_spec v 0) as [E|E]; cbn [negb]; [apply setActiveKeys_id|].
  unfold bitmask. rewrite Ev. cbn [default from_option id].
  rewrite (Hbit eq_refl v) by done.
  destruct (Z.eqb_spec v 0) as [E'|_]; [done|].
  rewrite insert_id by done. apply setActiveKeys_id.
Qed.

(** The event of a key that is not a named key reads and writes the entry of
    its key only. *)
Lemma unnamed_event_local (e : KeyEvent) key :
  eventKey e = Some key -> _isNamedKey key = false ->
  exists (f : option Z -> option Z) (g : option Z -> bool),
    forall w, handle e w
              = notify (g (activeKeys w !! key))
                  (setActiveKeys (partial_alter f key (activeKeys w)) w).
Proof.
  intros He Hn.
  assert (forall m, partial_alter (fun o : option Z => o) key m = m) as Hid.
  { intros m. apply map_eq. intros k.
    destruct (decide (k = key)) as [->|Hne].
    - by rewrite lookup_partial_alter_eq.
    - by rewrite lookup_partial_alter_ne. }
  destruct e as [key' location|key' location|]; [| |done];
    injection He as ->.
  - destruct (tracked key) eqn:Et.
    + exists (fun o => if bool_decide (o = None) && inheritedMember key
                          && String.eqb key "__proto__"
                       then None
                       else Some (let v := orZero o in
                                  if Int32.band v (Int32.shl 1 location) =? 0
                                  then Int32.bor v (Int32.shl 1 location)
                                  else v)),
             (fun o => if bool_decide (o = None) && inheritedMember key
                       then false
                       else let v := orZero o in
                            if Int32.band v (Int32.shl 1 location) =? 0
                            then v =? 0 else false).
      intros w. cbn [handle]. rewrite handleKeydown_eq. cbv zeta.
      unfold afterModifiers, inheritsOnly. rewrite Hn, Et. cbn [andb].
      cbv beta zeta.
      destruct (bool_decide (activeKeys w !! key = None) && inheritedMember key)
        eqn:Ei.
      * f_equal. f_equal.
        apply andb_true_iff in Ei as [Ek%bool_decide_eq_true Ei].
        destruct (String.eqb key "__proto__") eqn:Ep.
        -- apply map_eq. intros k. destruct (decide (k = key)) as [->|Hne].
           ++ rewrite lookup_partial_alter_eq, Ek, Ei.
              by rewrite bool_decide_eq_true_2.
           ++ by rewrite lookup_partial_alter_ne.
        -- apply partial_alter_ext. intros x <-.
           rewrite Ek, andb_false_r. change (orZero None) with 0.
           by rewrite band_zero_l.
      * destruct (_ =? 0) eqn:Ez.
        -- rewrite orb_false_r. f_equal. f_equal.
           apply partial_alter_ext. intros x <-. by rewrite Ei, Ez.
        -- f_equal. f_equal. apply partial_alter_ext.
           intros x <-. by rewrite Ei, Ez.
    + exists (fun o => o), (fun _ => false).
      intros w. cbn [handle]. rewrite handleKeydown_eq. cbv zeta.
      unfold afterModifiers. rewrite Hn, Et. cbn [andb]. by rewrite Hid.
  - destruct (tracked key) eqn:Et.
    + exists (fun o => if truthy o
                       then let v := Int32.band (default 0 o)
                                       (Int32.bnot (Int32.shl 1 location)) in
                            if v =? 0 then None else Some v
                       else o),
             (fun o => if bool_decide (o = None) && inheritedMember key
                          && negb (String.eqb key "__proto__")
                       then true
                       else if truthy o
                       then Int32.band (default 0 o)
                              (Int32.bnot (Int32.shl 1 location)) =? 0
                       else false).
      intros w. cbn [handle]. rewrite handleKeyup_eq. cbv zeta.
      unfold afterModifiers, bitmask, inheritsOnly. rewrite Hn, Et. cbn [andb].
      cbv beta zeta.
      destruct (bool_decide (activeKeys w !! key = None) && inheritedMember key
                && negb (String.eqb key "__proto__")) eqn:Ei.
      { f_equal. f_equal.
        apply andb_true_iff in Ei as [[Ek%bool_decide_eq_true _]%andb_true_iff _].
        rewrite <- (Hid (activeKeys w)) at 1.
        apply partial_alter_ext. intros x Hx. by rewrite <- Hx, Ek. }
      destruct (truthy (activeKeys w !! key)) eqn:Etr.
      * destruct (_ =? 0) eqn:Ez.
        -- f_equal. f_equal. apply partial_alter_ext.
           intros x Hx. by rewrite <- Hx, Etr, Ez.
        -- f_equal. f_equal. apply partial_alter_ext.
           intros x Hx. by rewrite <- Hx, Etr, Ez.
      * f_equal. f_equal. rewrite <- (Hid (activeKeys w)) at 1.
        apply partial_alter_ext. intros x Hx. by rewrite <- Hx, Etr.
    + exists (fun o => o), (fun _ => false).
      intros w. cbn [handle]. rewrite handleKeyup_eq. cbv zeta.
      unfold afterModifiers. rewrite Hn, Et. cbn [andb]. by rewrite Hid.
Qed.

End Local.

(** A key-up handled right after a key-up of the same key and location, with
    no event in between, leaves the watcher as it is: the object is unchanged
    and no [change] event is dispatched.  This holds in every state, for a
    key that is not the name of a function that the object inherits from
    [Object.prototype]. *)
Theorem keyup_twice (key : string) (location : Z) (w : KeyWatcher) :
  inheritedFunction key = false ->
  let w1 := handle (KeyUp key location) w in
  handle (KeyUp key location) w1 = w1.
Proof.
  intros Hf w1.
  assert (_isNamedKey key = true ->
          hasUnnamed (afterModifiers key (activeKeys w)) = false) as Hu.
  { intros Hn. unfold afterModifiers. rewrite Hn. apply hasUnnamed_namedOnly. }
  pose proof (handleKeyup_eq key location w) as Hw1. cbv zeta in Hw1.
  rewrite keyup_guard_false in Hw1 by done.
  change (_handleKeyup key location w) with w1 in Hw1. clearbody w1.
  set (m' := afterModifiers key (activeKeys w)) in *.
  destruct (tracked key && truthy (m' !! key)) eqn:Eb.
  - destruct (Z.eqb_spec (Int32.band (bitmask m' key)
                            (Int32.bnot (Int32.shl 1 location))) 0) as [Hz|Hz];
      subst w1; apply keyup_noop; [done | | | done | |];
      rewrite activeKeys_notify; cbn [activeKeys setActiveKeys].
    + destruct (_isNamedKey key) eqn:En; [|done]. cbn [andb].
      by apply hasUnnamed_delete, Hu.
    + intros _ v Hv. by rewrite lookup_delete_eq in Hv.
    + destruct (_isNamedKey key) eqn:En; [|done]. cbn [andb].
      by apply hasUnnamed_insert_named; [|apply Hu].
    + intros _ v Hv _. rewrite lookup_insert_eq in Hv. injection Hv as <-.
      apply band_bnot_idemp.
  - subst w1. apply keyup_noop; [done | |]; rewrite activeKeys_notify;
      cbn [activeKeys setActiveKeys].
    + destruct (_isNamedKey key) eqn:En; [|done]. cbn [andb]. by apply Hu.
    + intros Ht v Hv Hne. rewrite Ht, Hv in Eb. cbn in Eb.
      by destruct (Z.eqb_spec v 0).
Qed.

Lemma keyup_twice_witness :
  let w := replay [KeyDown "a" 0; KeyDown "a" 1] newKeyWatcher in
  handle (KeyUp "a" 0) (handle (KeyUp "a" 0) w) = handle (KeyUp "a" 0) w.
Proof.
  intros w. apply (keyup_twice "a" 0 w). reflexivity.
Defined.

(** The events of two different keys that are not named keys can be handled
    in either order: the watcher is the same afterwards. *)
Theorem unnamed_key_events_commute (e1 e2 : KeyEvent) (k1 k2 : string)
    (w : KeyWatcher) :
  eventKey e1 = Some k1 -> eventKey e2 = Some k2 -> k1 <> k2 ->
  _isNamedKey k1 = false -> _isNamedKey k2 = false ->
  handle e2 (handle e1 w) = handle e1 (handle e2 w).
Proof.
  intros H1 H2 Hne Hn1 Hn2.
  destruct (unnamed_event_local e1 k1 H1 Hn1) as (f1 & g1 & E1).
  destruct (unnamed_event_local e2 k2 H2 Hn2) as (f2 & g2 & E2).
  rewrite (E2 (handle e1 w)), (E1 (handle e2 w)), (E1 w), (E2 w).
  rewrite !activeKeys_notify. cbn [activeKeys setActiveKeys].
  rewrite lookup_partial_alter_ne by done.
  rewrite (lookup_partial_alter_ne f2 (activeKeys w)) by done.
  rewrite (partial_alter_partial_alter_ne f2 f1 (activeKeys w) k2 k1) by done.
  destruct w as [m d ws].
  by destruct (g1 _), (g2 _).
Qed.

Lemma unnamed_key_events_commute_witness :
  handle (KeyUp "b" 0) (handle (KeyDown "a" 0) newKeyWatcher)
  = handle (KeyDown "a" 0) (handle (KeyUp "b" 0) newKeyWatcher).
Proof.
  apply (unnamed_key_events_commute (KeyDown "a" 0) (KeyUp "b" 0) "a" "b"
           newKeyWatcher); (reflexivity || discriminate).
Defined.

Lemma continuation_not_alnum (d : ascii) :
  isContinuationByte d = true -> isAlnum d = false.
Proof.
  destruct d as [[] [] [] [] [] [] [] []]; vm_compute; congruence.
Qed.

(** A key that is empty or one character, whatever the number of bytes of
    the character, is not a named key, so its key-down and its key-up leave
    the entry of every other key as it was. *)
Theorem short_key_touches_own_entry_only (key : string) (location : Z)
    (w : KeyWatcher) (k : string) :
  atMostOneCharacter key = true -> k <> key ->
  _isNamedKey key = false /\
  activeKeys (handle (KeyDown key location) w) !! k = activeKeys w !! k /\
  activeKeys (handle (KeyUp key location) w) !! k = activeKeys w !! k.
Proof.
  intros Hlen Hne.
  assert (_isNamedKey key = false) as Hn.
  { destruct key as [|c [|d r]]; [done | done |].
    cbn in Hlen. apply andb_true_iff in Hlen as [Hd _].
    cbn. by rewrite (continuation_not_alnum d Hd), andb_false_r. }
  split; [done|]. split.
  - rewrite keydown_lookup_other by (by right).
    by rewrite afterModifiers_lookup, Hn.
  - rewrite keyup_lookup_other by (by right).
    by rewrite afterModifiers_lookup, Hn.
Qed.

Lemma short_key_touches_own_entry_only_witness :
  let w := setActiveKeys {[ "Shift" := 2 ]} newKeyWatcher in
  let e_acute := String (ascii_of_N 195) (String (ascii_of_N 169) EmptyString) in
  activeKeys (handle (KeyDown e_acute 0) w) !! "Shift"
  = activeKeys w !! "Shift".
Proof.
  intros w e_acute.
  apply (short_key_touches_own_entry_only e_acute 0 w "Shift");
    [reflexivity | discriminate].
Defined.

(** ** Repeated key-down with other events in between *)

Section Recorded.

Implicit Types (m : gmap string Z) (w : KeyWatcher) (k key : string).

Lemma band_shl_nonzero_iff (x location : Z) :
  Int32.band x (Int32.shl 1 location) <> 0 <->
  Z.testbit x (location mod 32) = true.
Proof.
  pose proof (Z.mod_pos_bound location 32 ltac:(lia)) as Hi. split.
  - intros H. destruct (Z.testbit x (location mod 32)) eqn:E; [done|].
    by apply band_shl_zero in E.
  - intros Hb E.
    pose proof (Int32Facts.band_testbit x (Int32.shl 1 location)
                  (location mod 32) Hi) as Ht.
    rewrite E, Z.bits_0, Hb, Int32Facts.shl_1_testbit, Z.eqb_refl in Ht by done.
    discriminate.
Qed.

Lemma named_not_proto key :
  _isNamedKey key = true -> String.eqb key "__proto__" = false.
Proof.
  intros Hn. destruct (String.eqb_spec key "__proto__") as [->|]; [|done].
  by vm_compute in Hn.
Qed.

Lemma afterModifiers_own key m : afterModifiers key m !! key = m !! key.
Proof. rewrite afterModifiers_lookup. by destruct (_isNamedKey key). Qed.

Lemma named_keydown_no_unnamed key location w :
  _isNamedKey key = true ->
  hasUnnamed (activeKeys (handle (KeyDown key location) w)) = false.
Proof.
  intros Hn. apply hasUnnamed_false. intros k [v Hv].
  destruct (decide (k = key)) as [->|Hne]; [done|].
  rewrite keydown_lookup_other, afterModifiers_lookup, Hn in Hv by (by right).
  by destruct (_isNamedKey k).
Qed.

Lemma keyup_is_Some key location w k :
  is_Some (activeKeys (handle (KeyUp key location) w) !! k) ->
  is_Some (activeKeys w !! k).
Proof.
  assert (forall k0, is_Some (afterModifiers key (activeKeys w) !! k0) ->
                     is_Some (activeKeys w !! k0)) as Hsub.
  { intros k0. rewrite afterModifiers_lookup.
    destruct (_ && _); [by intros [? ?] | done]. }
  destruct (decide (tracked key = false \/ k <> key)) as [H|H].
  { rewrite keyup_lookup_other by done. apply Hsub. }
  assert (tracked key = true /\ k = key) as [Ht ->].
  { destruct (tracked key); destruct (decide (k = key)); tauto. }
  rewrite keyup_lookup_key by done. cbv zeta.
  destruct (truthy (afterModifiers key (activeKeys w) !! key)) eqn:Etr;
    [|apply Hsub].
  intros _. apply Hsub.
  destruct (afterModifiers key (activeKeys w) !! key); [eauto | done].
Qed.

Lemma recorded_after_keydown key location w :
  recorded key location (activeKeys (handle (KeyDown key location) w)).
Proof.
  split; [apply named_keydown_no_unnamed|].
  intros Ht.
  destruct (inheritsOnly (afterModifiers key (activeKeys w)) key
            && String.eqb key "__proto__") eqn:Ep.
  - right. apply andb_true_iff in Ep as [Ei Ep]. split; [done|].
    apply keydown_lookup_proto; [done|].
    unfold inheritsOnly in Ei. apply andb_true_iff in Ei as [Ei _].
    by apply bool_decide_eq_true in Ei.
  - left. eexists. split; [by apply keydown_lookup_key_gen|]. cbv zeta.
    destruct (Z.eqb_spec
                (Int32.band (orZero (afterModifiers key (activeKeys w) !! key))
                            (Int32.shl 1 location)) 0) as [Hz|Hz]; [|done].
    apply and_or_shl_nonzero.
Qed.

Lemma recorded_preserved key location (e : KeyEvent) w :
  harmless key location e = true ->
  recorded key location (activeKeys w) ->
  recorded key location (activeKeys (handle e w)).
Proof.
  intros He [Hu Hb]. destruct e as [k l|k l|]; [| |done]; cbn in He.
  - apply Bool.eqb_prop in He. split.
    + intros Hn. apply named_keydown_no_unnamed. by rewrite He.
    + intros Ht. destruct (decide (k = key)) as [->|Hne].
      * destruct (Hb Ht) as [(x & Hx & Hand)|[Hp Hk]].
        -- left. eexists. split.
           { apply keydown_lookup_key_gen; [done|].
             unfold inheritsOnly.
             by rewrite afterModifiers_own, Hx, bool_decide_eq_false_2. }
           cbv zeta. rewrite afterModifiers_own, Hx, orZero_Some.
           destruct (Int32.band x (Int32.shl 1 l) =? 0); [|done].
           apply band_shl_nonzero_iff.
           pose proof (Z.mod_pos_bound location 32 ltac:(lia)) as Hi.
           rewrite Int32Facts.bor_testbit by done.
           apply band_shl_nonzero_iff in Hand. by rewrite Hand.
        -- right. split; [done|].
           apply keydown_lookup_proto; [done|]. by rewrite afterModifiers_own.
      * rewrite keydown_lookup_other, afterModifiers_lookup by (by right).
        rewrite He. destruct (_isNamedKey key); by apply Hb.
  - apply andb_true_iff in He as [Hk Hl]. split.
    + intros Hn. apply hasUnnamed_false. intros k0 Hk0.
      apply keyup_is_Some in Hk0. specialize (Hu Hn).
      rewrite hasUnnamed_false in Hu. by apply Hu.
    + intros Ht. destruct (decide (k = key)) as [->|Hne].
      * rewrite String.eqb_refl in Hl. cbn in Hl.
        apply negb_true_iff, Z.eqb_neq in Hl.
        rewrite keyup_lookup_key by done. cbv zeta.
        rewrite afterModifiers_own. unfold bitmask.
        rewrite afterModifiers_own.
        destruct (Hb Ht) as [(x & Hx & Hand)|[Hp Hk']].
        -- left. rewrite Hx. cbn [truthy default from_option id].
           pose proof (Z.mod_pos_bound location 32 ltac:(lia)) as Hi.
           apply band_shl_nonzero_iff in Hand.
           assert (Z.testbit (Int32.band x (Int32.bnot (Int32.shl 1 l)))
                             (location mod 32) = true) as Hbit.
           { rewrite Int32Facts.band_testbit, Int32Facts.bnot_testbit,
               Int32Facts.shl_1_testbit, Hand by done.
             cbn. apply negb_true_iff. by apply Z.eqb_neq. }
           destruct (Z.eqb_spec x 0) as [E|_].
           { rewrite E in Hand. by rewrite Z.bits_0 in Hand. }
           cbn [negb].
           destruct (Z.eqb_spec (Int32.band x (Int32.bnot (Int32.shl 1 l))) 0)
             as [E|_].
           { rewrite E in Hbit. by rewrite Z.bits_0 in Hbit. }
           eexists. split; [done|]. by apply band_shl_nonzero_iff.
        -- right. by rewrite Hk'.
      * rewrite keyup_lookup_other, afterModifiers_lookup by (by right).
        destruct (_isNamedKey k) eqn:Enk; [|by apply Hb].
        cbn in Hk. rewrite Hk. by apply Hb.
Qed.

Lemma recorded_noop key location w :
  recorded key location (activeKeys w) ->
  handle (KeyDown key location) w = w.
Proof.
  intros [Hu Hb]. apply keydown_noop; [|done].
  destruct (_isNamedKey key); [by apply Hu | done].
Qed.

Lemma recorded_replay key location (mid : list KeyEvent) w :
  forallb (harmless key location) mid = true ->
  recorded key location (activeKeys w) ->
  recorded key location (activeKeys (replay mid w)).
Proof.
  revert w. induction mid as [|e mid IH]; intros w Hmid Hr; [done|].
  cbn in Hmid. apply andb_true_iff in Hmid as [He Hmid].
  cbn. apply IH; [done|]. by apply recorded_preserved.
Qed.

End Recorded.

(** C7, as the handlers run it: a key-down repeated for the same key and
    location leaves the object as it is and dispatches no [change] event,
    when between the two key-downs there is no blur, no key-up of the key at
    a location congruent to the location modulo 32, and no event that takes
    part in the cleanup of the unnamed keys (no event of a named key when the
    key is not named, no key-down of a key that is not named when the key is
    named); any number of other events may come between. *)
Theorem keydown_repeat_unchanged (key : string) (location : Z)
    (mid : list KeyEvent) (w : KeyWatcher) :
  forallb (harmless key location) mid = true ->
  let w2 := replay mid (handle (KeyDown key location) w) in
  activeKeys (handle (KeyDown key location) w2) = activeKeys w2 /\
  notifications (KeyDown key location) w2 = 0%nat.
Proof.
  intros Hmid w2.
  assert (handle (KeyDown key location) w2 = w2) as E.
  { apply recorded_noop, recorded_replay; [done|].
    apply recorded_after_keydown. }
  unfold notifications. rewrite E. split; [done | lia].
Qed.

Lemma keydown_repeat_unchanged_witness :
  let mid := [KeyDown "b" 0; KeyUp "b" 0; KeyUp "a" 1; KeyDown "a" 2;
              KeyDown "toString" 3] in
  let w2 := replay mid (handle (KeyDown "a" 0) newKeyWatcher) in
  activeKeys (handle (KeyDown "a" 0) w2) = activeKeys w2 /\
  notifications (KeyDown "a" 0) w2 = 0%nat.
Proof.
  intros mid w2.
  apply (keydown_repeat_unchanged "a" 0 mid newKeyWatcher). reflexivity.
Defined.

(** ** Locations modulo 32, recorded and released *)

Lemma orZero_bitmask (m : gmap string Z) (k : string) :
  orZero (m !! k) = bitmask m k.
Proof.
  unfold bitmask. destruct (m !! k) as [v|]; [apply orZero_Some | done].
Qed.

Lemma keydown_bits_any (key : string) (l : Z) (w : KeyWatcher) (i : Z) :
  tracked key = true -> String.eqb key "__proto__" = false ->
  0 <= i < 32 ->
  Z.testbit (bitmask (activeKeys (handle (KeyDown key l) w)) key) i
  = Z.testbit (bitmask (activeKeys w) key) i || (i =? l mod 32).
Proof.
  intros Ht Hp Hi. unfold bitmask at 1.
  rewrite keydown_lookup_key by done. cbv zeta. cbn [default from_option id].
  rewrite afterModifiers_own, orZero_bitmask.
  set (v := bitmask (activeKeys w) key).
  destruct (Z.eqb_spec (Int32.band v (Int32.shl 1 l)) 0) as [Hz|Hz].
  - rewrite Int32Facts.bor_testbit, Int32Facts.shl_1_testbit by done.
    by rewrite (Z.eqb_sym i).
  - apply band_shl_nonzero_iff in Hz.
    destruct (Z.eqb_spec i (l mod 32)) as [->|_];
      [by rewrite Hz | by rewrite orb_false_r].
Qed.

Lemma keyup_bits_any (key : string) (l : Z) (w : KeyWatcher) (i : Z) :
  tracked key = true -> truthy (activeKeys w !! key) = true ->
  0 <= i < 32 ->
  Z.testbit (bitmask (activeKeys (handle (KeyUp key l) w)) key) i
  = Z.testbit (bitmask (activeKeys w) key) i && negb (i =? l mod 32).
Proof.
  intros Ht Htr Hi. unfold bitmask at 1.
  rewrite keyup_lookup_key by done. cbv zeta.
  unfold bitmask. rewrite afterModifiers_own, Htr.
  set (v := default 0 (activeKeys w !! key)).
  assert (Z.testbit (Int32.band v (Int32.bnot (Int32.shl 1 l))) i
          = Z.testbit v i && negb (i =? l mod 32)) as Hb.
  { rewrite Int32Facts.band_testbit, Int32Facts.bnot_testbit,
      Int32Facts.shl_1_testbit by done.
    by rewrite (Z.eqb_sym i). }
  destruct (Z.eqb_spec (Int32.band v (Int32.bnot (Int32.shl 1 l))) 0)
    as [Hz|Hz]; cbn [default from_option id]; [|done].
  rewrite <- Hb, Hz. reflexivity.
Qed.

(** C10. The bit of a location is [1 << location], which is 2 to the power
    [location mod 32] as a 32-bit integer.  Two locations that are congruent
    modulo 32 have the same bit, and key-down and key-up behave the same at
    both, for every key.  For a key that gets an entry (none of the empty
    string, ["Dead"] and ["__proto__"]): a key-down at one location sets
    exactly bit [location mod 32] in the value of the key, which is then
    active; a key-up at the other location then clears exactly that bit; and
    a key that had no entry has none after the two. *)
Theorem location_modulo_32 (key : string) (l l' : Z) (w : KeyWatcher) :
  l mod 32 = l' mod 32 ->
  Int32.shl 1 l = Int32.ToInt32 (2 ^ (l mod 32)) /\
  Int32.shl 1 l = Int32.shl 1 l' /\
  handle (KeyDown key l) w = handle (KeyDown key l') w /\
  handle (KeyUp key l) w = handle (KeyUp key l') w /\
  (tracked key = true -> key <> "__proto__" ->
   let w1 := handle (KeyDown key l) w in
   let w2 := handle (KeyUp key l') w1 in
   (forall i, 0 <= i < 32 ->
      Z.testbit (bitmask (activeKeys w1) key) i
      = Z.testbit (bitmask (activeKeys w) key) i || (i =? l mod 32)) /\
   truthy (activeKeys w1 !! key) = true /\
   (forall i, 0 <= i < 32 ->
      Z.testbit (bitmask (activeKeys w2) key) i
      = Z.testbit (bitmask (activeKeys w) key) i && negb (i =? l mod 32)) /\
   (activeKeys w !! key = None -> activeKeys w2 !! key = None)).
Proof.
  intros Hl. pose proof (shl_1_congruent l l' Hl) as Hb.
  split; [apply Int32Facts.shl_1|]. split; [done|].
  split; [by cbn [handle]; rewrite !handleKeydown_eq, Hb|].
  split; [by cbn [handle]; rewrite !handleKeyup_eq, Hb|].
  intros Ht Hp%String.eqb_neq w1 w2.
  assert (truthy (activeKeys w1 !! key) = true) as Htr
    by by apply keydown_active.
  assert (forall i, 0 <= i < 32 ->
            Z.testbit (bitmask (activeKeys w2) key) i
            = Z.testbit (bitmask (activeKeys w) key) i && negb (i =? l mod 32))
    as Hup.
  { intros i Hi. subst w2. rewrite keyup_bits_any by done.
    subst w1. rewrite keydown_bits_any, <- Hl by done.
    by destruct (Z.testbit _ i), (i =? l mod 32). }
  split; [intros i Hi; by apply keydown_bits_any|].
  split; [done|]. split; [done|].
  intros Hk.
  destruct (activeKeys w2 !! key) as [x|] eqn:Ex; [|done]. exfalso.
  assert (well_formed_entry : x <> 0 /\ Int32.is_int32 x).
  { subst w2. rewrite keyup_lookup_key in Ex by done. cbv zeta in Ex.
    rewrite afterModifiers_own, Htr in Ex.
    destruct (Z.eqb_spec
                (Int32.band (bitmask (afterModifiers key (activeKeys w1)) key)
                            (Int32.bnot (Int32.shl 1 l'))) 0) as [|Hne];
      [done|].
    injection Ex as <-. split; [done | apply Int32Facts.band_int32]. }
  destruct well_formed_entry as [Hne Hint].
  apply Hne, Int32Facts.int32_zero_bits; [done|]. intros i Hi.
  specialize (Hup i Hi). unfold bitmask in Hup. rewrite Ex, Hk in Hup.
  cbn in Hup. by rewrite Z.bits_0 in Hup.
Qed.

Lemma location_modulo_32_witness :
  0 mod 32 = 32 mod 32 /\
  truthy (activeKeys (handle (KeyDown "a" 0) newKeyWatcher) !! "a") = true /\
  activeKeys (handle (KeyUp "a" 32) (handle (KeyDown "a" 0) newKeyWatcher))
    !! "a" = None.
Proof.
  split; [reflexivity|].
  destruct (location_modulo_32 "a" 0 32 newKeyWatcher eq_refl)
    as (_ & _ & _ & _ & H).
  destruct (H eq_refl ltac:(discriminate)) as (_ & Hactive & _ & Hnone).
  split; [exact Hactive | exact (Hnone eq_refl)].
Defined.
